(** * The Agora: the in-memory store of [store.js]

    A shallow embedding of [window.AgoraStore]: the four collections
    ([posts], [args], [allTags], [votes]), the operations on them and the
    two render helpers, followed by the properties of the specification.

    Conventions of the embedding.
    - A JavaScript string is the list of its UTF-16 code units ([list N]);
      [lit] turns an ASCII literal into one.
    - A JavaScript number that the store only counts with is a [Z]
      (the counters stay far below 2^53, where doubles are exact).
    - [uid()] and [new Date()] read the clock and the random generator:
      an operation receives their results in an [Env].  An ISO timestamp
      is represented by the instant (milliseconds) it denotes.
    - [posts] and [allTags] are arrays (lists, [unshift] is [cons]).
      [args] is a plain object that [toggleSteelman] enumerates with
      [for..in]; it is a property list kept in enumeration order.
      [votes] is a plain object that is only read and written by key: a
      [gmap].  Keys are identifiers; the members a plain object inherits
      from [Object.prototype] are not identifiers and are left out.
    - An argument, a post or a vote record is mutated in place in the
      source; the embedding rewrites the element where it is stored.
    - [save] only mirrors a collection to [localStorage] and swallows its
      own failures; the in-memory collections never read the mirror back,
      so only the mirror of the current-post pointer is part of the state. *)

From Stdlib Require Import ZArith NArith Ascii String DecimalString.
From stdpp Require Import base option list gmap.

Local Open Scope Z_scope.

(** * Part I: the store, as the source has it *)

(** ** Strings *)

Abbreviation jsstring := (list N).
Abbreviation ident := (list N).

Fixpoint lit (s : string) : jsstring :=
  match s with
  | EmptyString => []
  | String c r => N_of_ascii c :: lit r
  end.
Arguments lit s%_string.

(** A string used as a condition: the empty string is falsy, and so are
    [undefined] and [null] ([None]). *)
Definition truthy (o : option jsstring) : bool :=
  match o with
  | Some (_ :: _) => true
  | _ => false
  end.

(** [x || null] on an optional string. *)
Definition or_null (o : option jsstring) : option jsstring :=
  if truthy o then o else None.

(** [x || d] on an optional string. *)
Definition or_else (o : option jsstring) (d : jsstring) : jsstring :=
  match o with
  | Some (c :: r) => c :: r
  | _ => d
  end.

(** [confidence || null]: zero is falsy. *)
Definition num_or_null (o : option Z) : option Z :=
  match o with
  | Some 0 => None
  | _ => o
  end.

(** White space and line terminators, as [String.prototype.trim] strips. *)
Definition is_space (c : N) : bool :=
  ((9 <=? c) && (c <=? 13) || (c =? 32) || (c =? 160) || (c =? 5760)
   || (8192 <=? c) && (c <=? 8202) || (c =? 8232) || (c =? 8233)
   || (c =? 8239) || (c =? 8287) || (c =? 12288) || (c =? 65279))%N.

Fixpoint trim_start (s : jsstring) : jsstring :=
  match s with
  | [] => []
  | c :: r => if is_space c then trim_start r else s
  end.

Definition trim (s : jsstring) : jsstring :=
  reverse (trim_start (reverse (trim_start s))).

(** ** Plain objects enumerated in property order

    [for (k in o)] visits the keys that are array indices first, in
    ascending order, then the other keys in the order they were added. *)

Definition is_digit (c : N) : bool := ((48 <=? c) && (c <=? 57))%N.

Definition digits_value (s : jsstring) : N :=
  foldl (fun acc c => acc * 10 + (c - 48))%N 0%N s.

(** The canonical numeric strings below 2^32 - 1. *)
Definition array_index (k : ident) : option N :=
  match k with
  | [] => None
  | c :: r =>
      if forallb is_digit k
         && (negb (c =? 48)%N || bool_decide (r = []))
         && (digits_value k <=? 4294967294)%N
      then Some (digits_value k)
      else None
  end.

Section Obj.
Context {V : Type}.

Definition obj := list (ident * V).

Fixpoint obj_get (k : ident) (o : obj) : option V :=
  match o with
  | [] => None
  | (k', v) :: r => if bool_decide (k' = k) then Some v else obj_get k r
  end.

(** A new index key goes before the first entry that is not an index
    or is a larger index. *)
Fixpoint obj_add_index (n : N) (k : ident) (v : V) (o : obj) : obj :=
  match o with
  | [] => [(k, v)]
  | (k', v') :: r =>
      match array_index k' with
      | Some n' =>
          if (n' <? n)%N then (k', v') :: obj_add_index n k v r
          else (k, v) :: o
      | None => (k, v) :: o
      end
  end.

Definition obj_add (k : ident) (v : V) (o : obj) : obj :=
  match array_index k with
  | Some n => obj_add_index n k v o
  | None => o ++ [(k, v)]
  end.

Fixpoint obj_replace (k : ident) (v : V) (o : obj) : obj :=
  match o with
  | [] => []
  | (k', v') :: r =>
      if bool_decide (k' = k) then (k', v) :: r
      else (k', v') :: obj_replace k v r
  end.

(** [o[k] = v]: an existing property keeps its place. *)
Definition obj_set (k : ident) (v : V) (o : obj) : obj :=
  match obj_get k o with
  | Some _ => obj_replace k v o
  | None => obj_add k v o
  end.
End Obj.
Arguments obj V : clear implicits.

(** ** Data *)

Record Post := mkPost {
  post_id : ident;
  post_type : jsstring;
  post_title : jsstring;
  post_body : jsstring;
  post_tags : list jsstring;
  post_position : option jsstring;
  post_confidence : option Z;
  post_whatWouldChangeMyMind : option jsstring;
  post_author : jsstring;
  post_createdAt : Z;
  argCount : Z;
  forCount : Z;
  againstCount : Z;
  mindChanges : Z
}.

Record Argument := mkArgument {
  arg_id : ident;
  arg_postId : ident;
  arg_side : jsstring;
  arg_body : jsstring;
  arg_author : jsstring;
  arg_createdAt : Z;
  steelmanned : bool;
  steelmanCount : Z
}.

(** The two counters of a vote record are its properties [up] and
    [down]; a direction names one of them. *)
Inductive Dir := up | down.

Record VoteRecord := mkVotes {
  v_up : Z;
  v_down : Z;
  userVote : option Dir
}.

Global Instance Dir_eq_dec : EqDecision Dir.
Proof. solve_decision. Defined.

Record Store := mkStore {
  posts : list Post;
  args : obj (list Argument);
  allTags : list jsstring;
  votes : gmap ident VoteRecord;
  current : option ident   (* localStorage['agora_current_post'] *)
}.

(** What [uid()] and [new Date().toISOString()] give to one creation. *)
Record Env := mkEnv {
  uid : ident;
  now : Z
}.

Definition defaultTags : list jsstring :=
  [ lit "democracy"; lit "free speech"; lit "ethics"; lit "economics";
    lit "philosophy"; lit "technology"; lit "AI"; lit "climate";
    lit "justice"; lit "history"; lit "law"; lit "policy"; lit "science";
    lit "religion"; lit "capitalism"; lit "equality"; lit "rights";
    lit "education" ].

(** The store of a browser with nothing persisted. *)
Definition emptyStore : Store :=
  mkStore [] [] defaultTags ∅ None.

Definition set_posts (ps : list Post) (s : Store) : Store :=
  mkStore ps (args s) (allTags s) (votes s) (current s).
Definition set_args (a : obj (list Argument)) (s : Store) : Store :=
  mkStore (posts s) a (allTags s) (votes s) (current s).
Definition set_allTags (t : list jsstring) (s : Store) : Store :=
  mkStore (posts s) (args s) t (votes s) (current s).
Definition set_votes (v : gmap ident VoteRecord) (s : Store) : Store :=
  mkStore (posts s) (args s) (allTags s) v (current s).
Definition set_current (c : option ident) (s : Store) : Store :=
  mkStore (posts s) (args s) (allTags s) (votes s) c.

(** ** Posts *)

Record PostSpec := mkPostSpec {
  ps_type : jsstring;
  ps_title : jsstring;
  ps_body : jsstring;
  ps_tags : option (list jsstring);        (* [None]: the property is omitted *)
  ps_position : option jsstring;
  ps_confidence : option Z;
  ps_openingArgument : option jsstring;
  ps_whatWouldChangeMyMind : option jsstring
}.

Record ArgSpec := mkArgSpec {
  as_side : jsstring;
  as_body : jsstring;
  as_author : option jsstring;
  as_whatWouldChangeMyMind : option jsstring
}.

(** How a call ends: it returns, or a [TypeError] leaves it.  Both carry
    the store as the call left it. *)
Inductive Outcome (A : Type) :=
| Returns (s : Store) (r : A)
| Throws (s : Store).
Arguments Returns {A} s r.
Arguments Throws {A} s.

Definition store_of {A} (o : Outcome A) : Store :=
  match o with
  | Returns s _ => s
  | Throws s => s
  end.

Definition completes {A} (o : Outcome A) : bool :=
  match o with
  | Returns _ _ => true
  | Throws _ => false
  end.

Definition has_id (id : ident) (p : Post) : Prop := post_id p = id.
Global Instance has_id_dec id p : Decision (has_id id p).
Proof. unfold has_id. apply _. Defined.

(** [posts.find(p => p.id === id) || null] *)
Definition getPost (id : ident) (s : Store) : option Post :=
  snd <$> list_find (has_id id) (posts s).

Definition getAllPosts (s : Store) : list Post := posts s.

Definition getPostsByType (type : jsstring) (s : Store) : list Post :=
  filter (fun p => post_type p = type) (posts s).

(** ** Arguments *)

Definition FOR : jsstring := lit "for".
Definition AGAINST : jsstring := lit "against".
Definition You : jsstring := lit "You".

Definition eqs (a b : jsstring) : bool := bool_decide (a = b).

(** [post.argCount++; if (side === 'for') post.forCount++;
     if (side === 'against') post.againstCount++] *)
Definition count_argument (side : jsstring) (p : Post) : Post :=
  mkPost (post_id p) (post_type p) (post_title p) (post_body p)
    (post_tags p) (post_position p) (post_confidence p)
    (post_whatWouldChangeMyMind p) (post_author p) (post_createdAt p)
    (argCount p + 1)
    (if eqs side FOR then forCount p + 1 else forCount p)
    (if eqs side AGAINST then againstCount p + 1 else againstCount p)
    (mindChanges p).

(** The in-place update of the post that [getPost] finds. *)
Definition update_post (id : ident) (f : Post -> Post) (ps : list Post)
  : list Post :=
  match list_find (has_id id) ps with
  | Some (i, p) => <[i := f p]> ps
  | None => ps
  end.

Definition freshVotes : VoteRecord := mkVotes 0 0 None.

Definition getArguments (postId : ident) (s : Store) : list Argument :=
  default [] (obj_get postId (args s)).

Definition createArgument (e : Env) (postId : ident) (sp : ArgSpec) (s : Store)
  : Store * Argument :=
  let arg := mkArgument (uid e) postId (as_side sp) (as_body sp)
               (or_else (as_author sp) You) (now e) false 0 in
  let args' := obj_set postId (arg :: getArguments postId s) (args s) in
  let posts' := update_post postId (count_argument (as_side sp)) (posts s) in
  let votes' := <[uid e := freshVotes]> (votes s) in
  (mkStore posts' args' (allTags s) votes' (current s), arg).

(** [tags.forEach(t => { if (!allTags.includes(t)) allTags.push(t); })] *)
Definition registerTag (vocabulary : list jsstring) (t : jsstring)
  : list jsstring :=
  if bool_decide (t ∈ vocabulary) then vocabulary else vocabulary ++ [t].

Definition registerTags (tags vocabulary : list jsstring) : list jsstring :=
  foldl registerTag vocabulary tags.

(** [position === 'for' || position === 'against' ? position : 'for'] *)
Definition openingSide (position : option jsstring) : jsstring :=
  match position with
  | Some p => if eqs p FOR || eqs p AGAINST then p else FOR
  | None => FOR
  end.

(** The post object that [createPost] builds first. *)
Definition newPost (e : Env) (sp : PostSpec) : Post :=
  mkPost (uid e) (ps_type sp) (ps_title sp) (ps_body sp)
    (default [] (ps_tags sp)) (or_null (ps_position sp))
    (num_or_null (ps_confidence sp))
    (or_null (ps_whatWouldChangeMyMind sp)) You (now e)
    0 0 0 0.

(** [openingArgument && openingArgument.trim()] *)
Definition hasOpening (sp : PostSpec) : bool :=
  truthy (ps_openingArgument sp) && truthy (trim <$> ps_openingArgument sp).

Definition openingSpec (sp : PostSpec) : ArgSpec :=
  mkArgSpec (openingSide (ps_position sp))
    (default [] (ps_openingArgument sp)) (Some You)
    (ps_whatWouldChangeMyMind sp).

(** [e1] serves the post, [e2] the opening argument when there is one.
    The post object that is returned is the one at the head of [posts],
    which [createArgument] has counted the opening argument on. *)
Definition createPost (e1 e2 : Env) (sp : PostSpec) (s : Store)
  : Outcome Post :=
  let post := newPost e1 sp in
  let s1 := set_posts (post :: posts s) s in
  match ps_tags sp with
  | None => Throws s1                       (* undefined.forEach *)
  | Some tags =>
      let s2 := set_allTags (registerTags tags (allTags s1)) s1 in
      if hasOpening sp then
        let s3 := fst (createArgument e2 (post_id post) (openingSpec sp) s2) in
        Returns s3 (default post (head (posts s3)))
      else Returns s2 post
  end.

(** ** Votes *)

Definition counter (d : Dir) (v : VoteRecord) : Z :=
  match d with up => v_up v | down => v_down v end.

Definition set_counter (d : Dir) (n : Z) (v : VoteRecord) : VoteRecord :=
  match d with
  | up => mkVotes n (v_down v) (userVote v)
  | down => mkVotes (v_up v) n (userVote v)
  end.

Definition set_userVote (u : option Dir) (v : VoteRecord) : VoteRecord :=
  mkVotes (v_up v) (v_down v) u.

(** The body of [vote] once [v] is the record of the argument. *)
Definition cast (dir : Dir) (v : VoteRecord) : VoteRecord :=
  if bool_decide (userVote v = Some dir) then
    set_userVote None (set_counter dir (counter dir v - 1) v)
  else
    let v1 := match userVote v with
              | Some prev => set_counter prev (counter prev v - 1) v
              | None => v
              end in
    set_userVote (Some dir) (set_counter dir (counter dir v1 + 1) v1).

Definition getVotes (argId : ident) (s : Store) : VoteRecord :=
  default freshVotes (votes s !! argId).

Definition vote (argId : ident) (dir : Dir) (s : Store)
  : Store * VoteRecord :=
  let v := cast dir (default freshVotes (votes s !! argId)) in
  (set_votes (<[argId := v]> (votes s)) s, v).

(** ** Steelman *)

Definition is_arg (argId : ident) (a : Argument) : Prop := arg_id a = argId.
Global Instance is_arg_dec argId a : Decision (is_arg argId a).
Proof. unfold is_arg. apply _. Defined.

(** [arg.steelmanned = !arg.steelmanned;
     arg.steelmanCount += arg.steelmanned ? 1 : -1] *)
Definition flip (a : Argument) : Argument :=
  let now_on := negb (steelmanned a) in
  mkArgument (arg_id a) (arg_postId a) (arg_side a) (arg_body a)
    (arg_author a) (arg_createdAt a) now_on
    (steelmanCount a + (if now_on then 1 else -1)).

(** The [for..in] loop over [args]: the first post whose list holds an
    argument with the identifier decides. *)
Fixpoint steelman_scan (argId : ident) (o : obj (list Argument))
  : option (obj (list Argument) * bool) :=
  match o with
  | [] => None
  | (postId, l) :: r =>
      match list_find (is_arg argId) l with
      | Some (i, a) =>
          Some ((postId, <[i := flip a]> l) :: r, steelmanned (flip a))
      | None =>
          match steelman_scan argId r with
          | Some (r', b) => Some ((postId, l) :: r', b)
          | None => None
          end
      end
  end.

Definition toggleSteelman (argId : ident) (s : Store) : Store * bool :=
  match steelman_scan argId (args s) with
  | Some (a', b) => (set_args a' s, b)
  | None => (s, false)
  end.

(** ** Mind change, current post, tags *)

Definition count_mind_change (p : Post) : Post :=
  mkPost (post_id p) (post_type p) (post_title p) (post_body p)
    (post_tags p) (post_position p) (post_confidence p)
    (post_whatWouldChangeMyMind p) (post_author p) (post_createdAt p)
    (argCount p) (forCount p) (againstCount p) (mindChanges p + 1).

Definition declareMindChange (postId : ident) (text : jsstring) (s : Store)
  : Store :=
  set_posts (update_post postId count_mind_change (posts s)) s.

(** [stored] tells whether [localStorage.setItem] went through; [save]
    catches the failure. *)
Definition setCurrentPost (stored : bool) (postId : ident) (s : Store)
  : Store :=
  if stored then set_current (Some postId) s else s.

(** [const id = load(CURRENT_KEY, null); return id ? getPost(id) : null] *)
Definition getCurrentPost (s : Store) : option Post :=
  match current s with
  | Some id => if truthy (Some id) then getPost id s else None
  | None => None
  end.

Definition getAllTags (s : Store) : list jsstring := allTags s.

(** ** Render helpers *)

Definition dq : jsstring := [34%N].             (* the double quote *)
Definition nl : jsstring := [10%N].
Definition ellipsis : jsstring := [8230%N].      (* U+2026 *)
Definition star : jsstring := [9733%N].          (* U+2605 *)
Definition times : jsstring := [215%N].          (* U+00D7 *)
Definition glowing_star : jsstring := [11088%N]. (* U+2B50 *)
Definition up_triangle : jsstring := [9650%N].   (* U+25B2 *)
Definition down_triangle : jsstring := [9660%N]. (* U+25BC *)

(** [str.replace(/c/g, r)] for a pattern of one code unit. *)
Definition replaceAll (c : N) (r : jsstring) (str : jsstring) : jsstring :=
  str ≫= (fun x => if (x =? c)%N then r else [x]).

Definition escHtml (str : jsstring) : jsstring :=
  replaceAll 34 (lit "&quot;")
    (replaceAll 62 (lit "&gt;")
       (replaceAll 60 (lit "&lt;")
          (replaceAll 38 (lit "&amp;") str))).

(** [str.split(c)] for a separator of one code unit. *)
Fixpoint split (c : N) (str : jsstring) : list jsstring :=
  match str with
  | [] => [[]]
  | x :: r =>
      if (x =? c)%N then [] :: split c r
      else match split c r with
           | w :: ws => (x :: w) :: ws
           | [] => [[x]]
           end
  end.

(** An integer in a template literal. *)
Definition num (n : Z) : jsstring :=
  lit (NilZero.string_of_int (Z.to_int n)).

Definition timeAgo (clock iso : Z) : jsstring :=
  let diff := (clock - iso) / 1000 in
  if diff <? 60 then lit "Just now"
  else if diff <? 3600 then num (diff / 60) ++ lit " min ago"
  else if diff <? 86400 then num (diff / 3600) ++ lit " hr ago"
  else num (diff / 86400) ++ lit " days ago".

Record TypeColor := mkTypeColor {
  border : jsstring;
  badge : jsstring;
  color : jsstring
}.

(** [typeColors[post.type] || typeColors.discussion] *)
Definition typeColors (type : jsstring) : TypeColor :=
  if eqs type (lit "debate") then
    mkTypeColor (lit "var(--red)") (lit "rgba(164,22,35,0.08)")
      (lit "var(--red)")
  else if eqs type (lit "question") then
    mkTypeColor (lit "var(--green)") (lit "rgba(53,143,101,0.08)")
      (lit "var(--green)")
  else
    mkTypeColor (lit "var(--blue)") (lit "rgba(113,169,247,0.1)")
      (lit "var(--blue)").

(** The span of one tag, as [post.tags.slice(0, 3).map] builds it. *)
Definition tagSpan (tag : jsstring) : jsstring :=
  concat [
    lit "<span style="; dq;
    lit "font-family:'Cinzel',serif;font-size:10px;letter-spacing:0.08em;padding:3px 8px;border-radius:2px;background:rgba(46,80,119,0.08);color:var(--navy);";
    dq; lit ">"; tag; lit "</span>" ].

(** The two counters of a debate. *)
Definition debateCounts (post : Post) : jsstring :=
  concat [
    nl;
    lit "              <span style="; dq;
    lit "font-family:'Cinzel',serif;font-size:10px;padding:3px 10px;border-radius:20px;background:rgba(53,143,101,0.1);color:var(--green);";
    dq; lit ">"; num (forCount post); lit " For</span>"; nl;
    lit "              <span style="; dq;
    lit "font-family:'Cinzel',serif;font-size:10px;padding:3px 10px;border-radius:20px;background:rgba(164,22,35,0.08);color:var(--red);";
    dq; lit ">"; num (againstCount post); lit " Against</span>"; nl;
    lit "            " ].

(** The reply count of a discussion or a question. *)
Definition replyCount (post : Post) : jsstring :=
  concat [
    lit "<span style="; dq; lit "color:#aaa;"; dq; lit ">";
    num (argCount post); lit " ";
    (if (argCount post =? 1) then lit "reply" else lit "replies");
    lit "</span>" ].

Definition renderPostCard (clock : Z) (post : Post) : jsstring :=
  let t := typeColors (post_type post) in
  let tagHtml := concat (tagSpan <$> take 3 (post_tags post)) in
  concat [
    nl;
    lit "      <a class="; dq; lit "post-card"; dq; lit " href="; dq;
    lit "debate.html"; dq; lit " onclick="; dq;
    lit "AgoraStore.setCurrentPost('"; post_id post; lit "')"; dq;
    lit " style="; dq; nl;
    lit "        display:block; text-decoration:none; color:inherit;"; nl;
    lit "        background:white;"; nl;
    lit "        border:1px solid rgba(46,80,119,0.12);"; nl;
    lit "        border-left:4px solid "; border t; lit ";"; nl;
    lit "        border-radius:3px;"; nl;
    lit "        padding:28px;"; nl;
    lit "        transition:all 0.25s;"; nl;
    lit "        cursor:pointer;"; nl;
    lit "      "; dq; lit " onmouseover="; dq;
    lit "this.style.transform='translateY(-3px)';this.style.boxShadow='0 8px 30px rgba(46,80,119,0.1)'";
    dq; nl;
    lit "         onmouseout="; dq;
    lit "this.style.transform='';this.style.boxShadow=''"; dq; lit ">"; nl;
    lit "        <div style="; dq;
    lit "display:flex;align-items:center;gap:8px;margin-bottom:10px;flex-wrap:wrap;";
    dq; lit ">"; nl;
    lit "          <span style="; dq;
    lit "font-family:'Cinzel',serif;font-size:9px;letter-spacing:0.2em;text-transform:uppercase;padding:3px 10px;border-radius:20px;background:";
    badge t; lit ";color:"; color t; lit ";"; dq; lit ">"; post_type post;
    lit "</span>"; nl;
    lit "          "; tagHtml; nl;
    lit "        </div>"; nl;
    lit "        <div style="; dq;
    lit "font-family:'Cinzel',serif;font-size:17px;font-weight:600;color:var(--navy);line-height:1.3;margin-bottom:10px;";
    dq; lit ">"; escHtml (post_title post); lit "</div>"; nl;
    lit "        <div style="; dq;
    lit "font-size:14px;color:#777;line-height:1.6;margin-bottom:18px;"; dq;
    lit ">"; escHtml (take 140 (post_body post));
    (if (140 <? length (post_body post))%nat then ellipsis else []);
    lit "</div>"; nl;
    lit "        <div style="; dq;
    lit "display:flex;align-items:center;justify-content:space-between;border-top:1px solid rgba(0,0,0,0.06);padding-top:14px;font-size:13px;flex-wrap:wrap;gap:8px;";
    dq; lit ">"; nl;
    lit "          <div style="; dq; lit "display:flex;gap:8px;"; dq;
    lit ">"; nl;
    lit "            ";
    (if eqs (post_type post) (lit "debate") then debateCounts post else replyCount post);
    nl;
    lit "          </div>"; nl;
    lit "          <span style="; dq;
    lit "color:#bbb;font-family:'Cinzel',serif;font-size:11px;letter-spacing:0.05em;";
    dq; lit ">"; timeAgo clock (post_createdAt post); lit "</span>"; nl;
    lit "        </div>"; nl;
    lit "      </a>" ].

(** The badge of a steelmanned argument. *)
Definition steelBadge (arg : Argument) : jsstring :=
  concat [
    lit "<span class="; dq; lit "steelman-badge"; dq; lit ">"; star;
    lit " Steelmanned "; times; num (steelmanCount arg); lit "</span>" ].

Definition renderArgCard (toUpperCase : jsstring -> jsstring) (clock : Z) (s : Store)
    (arg : Argument) (postId : ident) : jsstring :=
  let v := getVotes (arg_id arg) s in
  let isFor := eqs (arg_side arg) FOR in
  let borderColor := if isFor then lit "var(--green)" else lit "var(--red)" in
  let borderBg := if isFor then lit "rgba(53,143,101,0.15)"
                  else lit "rgba(164,22,35,0.12)" in
  let badgeClass := if isFor then lit "badge-for" else lit "badge-against" in
  let sideLabel := if isFor then lit "For" else lit "Against" in
  let initials :=
    toUpperCase (take 2 (concat (take 1 <$> split 32 (arg_author arg)))) in
  let avatarBg := if isFor then lit "var(--green)" else lit "var(--red)" in
  let steelHtml := if steelmanned arg then steelBadge arg else [] in
  concat [
    nl;
    lit "      <div class="; dq; lit "arg-card "; arg_side arg; dq;
    lit " id="; dq; lit "arg-"; arg_id arg; dq; lit " style="; dq;
    lit "border-left-color:"; borderColor; lit ";border-color:"; borderBg;
    lit ";"; dq; lit ">"; nl;
    lit "        <div class="; dq; lit "arg-header"; dq; lit ">"; nl;
    lit "          <div class="; dq; lit "arg-author"; dq; lit ">"; nl;
    lit "            <div class="; dq; lit "avatar"; dq; lit " style="; dq;
    lit "background:"; avatarBg; lit ";"; dq; lit ">"; initials;
    lit "</div>"; nl;
    lit "            <div class="; dq; lit "arg-meta"; dq; lit ">"; nl;
    lit "              <span class="; dq; lit "arg-name"; dq; lit ">";
    escHtml (arg_author arg); lit "</span>"; nl;
    lit "              <span class="; dq; lit "arg-time"; dq; lit ">";
    timeAgo clock (arg_createdAt arg); lit "</span>"; nl;
    lit "            </div>"; nl;
    lit "          </div>"; nl;
    lit "          <span class="; dq; lit "arg-side-badge "; badgeClass; dq;
    lit ">"; sideLabel; lit "</span>"; nl;
    lit "        </div>"; nl;
    lit "        <p class="; dq; lit "arg-body"; dq; lit ">";
    replaceAll 10 (lit "<br>") (escHtml (arg_body arg)); lit "</p>"; nl;
    lit "        <div class="; dq; lit "arg-footer"; dq; lit ">"; nl;
    lit "          <button class="; dq; lit "arg-action steelman ";
    (if steelmanned arg then lit "active" else []); dq; nl;
    lit "            onclick="; dq; lit "handleSteelman('"; arg_id arg;
    lit "', this)"; dq; lit ">"; glowing_star; lit " ";
    (if steelmanned arg then lit "Steelmanned" else lit "Steelman");
    lit "</button>"; nl;
    lit "          "; steelHtml; nl;
    lit "          <div class="; dq; lit "arg-votes"; dq; lit ">"; nl;
    lit "            <button class="; dq; lit "vote-btn up ";
    (if bool_decide (userVote v = Some up) then lit "active-up" else []); dq;
    nl;
    lit "              onclick="; dq; lit "handleVote('"; arg_id arg;
    lit "', 'up', this)"; dq; lit ">"; up_triangle; lit "</button>"; nl;
    lit "            <span class="; dq; lit "vote-count"; dq; lit " id="; dq;
    lit "votes-"; arg_id arg; dq; lit ">"; num (v_up v - v_down v);
    lit "</span>"; nl;
    lit "            <button class="; dq; lit "vote-btn down ";
    (if bool_decide (userVote v = Some down) then lit "active-down" else []);
    dq; nl;
    lit "              onclick="; dq; lit "handleVote('"; arg_id arg;
    lit "', 'down', this)"; dq; lit ">"; down_triangle; lit "</button>"; nl;
    lit "          </div>"; nl;
    lit "        </div>"; nl;
    lit "      </div>" ].

Arguments createArgument : simpl never.
Arguments createPost : simpl never.
Arguments vote : simpl never.
Arguments toggleSteelman : simpl never.
Arguments declareMindChange : simpl never.
Arguments setCurrentPost : simpl never.

(** ** The mutating operations as events *)

Inductive Op :=
| OCreatePost (e1 e2 : Env) (sp : PostSpec)
| OCreateArgument (e : Env) (postId : ident) (sp : ArgSpec)
| OVote (argId : ident) (dir : Dir)
| OToggleSteelman (argId : ident)
| ODeclareMindChange (postId : ident) (text : jsstring)
| OSetCurrentPost (stored : bool) (postId : ident).

Definition step (op : Op) (s : Store) : Outcome unit :=
  match op with
  | OCreatePost e1 e2 sp =>
      match createPost e1 e2 sp s with
      | Returns s' _ => Returns s' ()
      | Throws s' => Throws s'
      end
  | OCreateArgument e postId sp => Returns (fst (createArgument e postId sp s)) ()
  | OVote argId dir => Returns (fst (vote argId dir s)) ()
  | OToggleSteelman argId => Returns (fst (toggleSteelman argId s)) ()
  | ODeclareMindChange postId text => Returns (declareMindChange postId text s) ()
  | OSetCurrentPost stored postId => Returns (setCurrentPost stored postId s) ()
  end.

(** A page keeps calling the store after a handler has thrown: the next
    call sees the store as the failed one left it. *)
Definition run (ops : list Op) (s : Store) : Store :=
  foldl (fun s op => store_of (step op s)) s ops.

(** * Part II: the vocabulary of the properties *)

(** ** Votes *)

Definition other (d : Dir) : Dir :=
  match d with up => down | down => up end.


(** ** Post counters *)

(** The sides of the arguments filed under a post, newest first. *)
Definition sidesOf (postId : ident) (s : Store) : list jsstring :=
  arg_side <$> getArguments postId s.

Definition tally (side : jsstring) (l : list jsstring) : Z :=
  Z.of_nat (length (filter (fun x => x = side) l)).

Definition counts_ok (p : Post) (sides : list jsstring) : Prop :=
  argCount p = Z.of_nat (length sides) /\
  forCount p = tally FOR sides /\
  againstCount p = tally AGAINST sides.

Definition store_inv (s : Store) : Prop :=
  NoDup (post_id <$> posts s) /\
  forall p, p ∈ posts s -> counts_ok p (sidesOf (post_id p) s).

(** What [uid()] hands to a new post is new: no post carries it and no
    argument has been filed under it. *)
Definition fresh_for (op : Op) (s : Store) : bool :=
  match op with
  | OCreatePost e1 _ _ =>
      bool_decide (uid e1 ∉ post_id <$> posts s)
      && bool_decide (uid e1 ∉ (args s).*1)
  | _ => true
  end.

Fixpoint fresh_uids (ops : list Op) (s : Store) : bool :=
  match ops with
  | [] => true
  | op :: r => fresh_for op s && fresh_uids r (store_of (step op s))
  end.

(** The sides of the arguments that one call files under [postId]. *)
Definition created_by (postId : ident) (op : Op) : list jsstring :=
  match op with
  | OCreateArgument _ postId' sp =>
      if bool_decide (postId' = postId) then [as_side sp] else []
  | OCreatePost e1 _ sp =>
      match ps_tags sp with
      | Some _ =>
          if bool_decide (uid e1 = postId) && hasOpening sp
          then [openingSide (ps_position sp)] else []
      | None => []
      end
  | _ => []
  end.

Definition created (postId : ident) (ops : list Op) : list jsstring :=
  ops ≫= created_by postId.

Definition on_post (id : ident) (f : Post -> Post) (p : Post) : Post :=
  if bool_decide (has_id id p) then f p else p.

Definition forOrAgainst (side : jsstring) : Prop :=
  side = FOR \/ side = AGAINST.

Global Instance forOrAgainst_dec side : Decision (forOrAgainst side).
Proof. unfold forOrAgainst. apply _. Defined.

(** The sides that the callers of [createArgument] supply. *)
Definition sides_given (op : Op) : list jsstring :=
  match op with
  | OCreateArgument _ _ sp => [as_side sp]
  | _ => []
  end.

(** ** Tag vocabulary *)

(** The distinct supplied tags that the vocabulary does not have yet. *)
Definition newTags (tags vocabulary : list jsstring) : list jsstring :=
  remove_dups (filter (fun t => t ∉ vocabulary) tags).

(** ** Text *)

Definition escChar (x : N) : jsstring :=
  if (x =? 38)%N then lit "&amp;"
  else if (x =? 60)%N then lit "&lt;"
  else if (x =? 62)%N then lit "&gt;"
  else if (x =? 34)%N then lit "&quot;"
  else [x].

(** [part] stands in [whole] as it is. *)
Definition verbatim (part whole : jsstring) : Prop :=
  exists before after, whole = before ++ part ++ after.

Fixpoint startsWith (needle haystack : jsstring) : bool :=
  match needle, haystack with
  | [], _ => true
  | x :: n, y :: h => (x =? y)%N && startsWith n h
  | _ :: _, [] => false
  end.

(** [haystack.includes(needle)], to look into a rendered card. *)
Fixpoint includes (needle haystack : jsstring) : bool :=
  startsWith needle haystack
  || match haystack with
     | [] => false
     | _ :: h => includes needle h
     end.

(** ** Sample data *)

Definition p1 : ident := lit "p1".
Definition a1 : ident := lit "a1".
Definition a2 : ident := lit "a2".
Definition a3 : ident := lit "a3".
Definition zz : ident := lit "zz".

Definition votedStore : Store :=
  mkStore [] [] defaultTags {[ a1 := mkVotes 1 0 (Some up) ]} None.

Definition demoSpec : PostSpec :=
  mkPostSpec (lit "debate") (lit "T") (lit "B")
    (Some [lit "ethics"; lit "stoicism"; lit "stoicism"])
    (Some (lit "undecided")) None (Some (lit "Opening")) None.

Definition demoOps : list Op :=
  [ OCreatePost (mkEnv p1 1000) (mkEnv a1 1001) demoSpec;
    OCreateArgument (mkEnv a2 2000) p1
      (mkArgSpec AGAINST (lit "No") (Some (lit "Ann")) None);
    OCreateArgument (mkEnv a3 3000) p1
      (mkArgSpec FOR (lit "Yes") None None);
    OVote a2 up;
    OToggleSteelman a3;
    OSetCurrentPost true zz ].

Definition demoStore : Store := run demoOps emptyStore.

Definition demoPost : Post :=
  mkPost p1 (lit "debate") (lit "T") (lit "B")
    [lit "ethics"; lit "stoicism"; lit "stoicism"]
    (Some (lit "undecided")) None None You 1000 3 2 1 0.

(** A post whose only tag holds markup, and the same text as a title. *)
Definition markup : jsstring := lit "<script>".

Definition taggedPost : Post :=
  mkPost p1 (lit "debate") (lit "T") (lit "B") [markup]
    None None None You 0 0 0 0 0.

Definition titledPost : Post :=
  mkPost p1 (lit "debate") markup (lit "B") []
    None None None You 0 0 0 0 0.

(** A post specification that leaves [tags] out. *)
Definition bareSpec : PostSpec :=
  mkPostSpec (lit "debate") (lit "T") (lit "B") None None None None None.

Definition neutralSpec : ArgSpec :=
  mkArgSpec (lit "neutral") (lit "Maybe") None None.

(** ** Tactics *)

Ltac by_decide := apply (bool_decide_unpack _); vm_compute; exact I.

Ltac find_piece :=
  repeat first [apply list_elem_of_here | apply list_elem_of_further].

(** ** Further vocabulary *)

(** The four characters that [escHtml] rewrites. *)
Definition special (c : N) : bool :=
  ((c =? 38) || (c =? 60) || (c =? 62) || (c =? 34))%N.

(** What [escHtml(body).replace(/\n/g, '<br>')] makes of one code unit. *)
Definition brChar (c : N) : jsstring :=
  if (c =? 10)%N then lit "<br>" else escChar c.

(** The post as [createPost] leaves it in [posts]: with its opening
    argument counted when the call gets as far as creating one. *)
Definition createdPost (e : Env) (sp : PostSpec) : Post :=
  match ps_tags sp with
  | Some _ =>
      if hasOpening sp
      then count_argument (openingSide (ps_position sp)) (newPost e sp)
      else newPost e sp
  | None => newPost e sp
  end.

(** What every stored post keeps: counters that are not negative, no more
    sided arguments than arguments, and the author label. *)
Definition post_ok (p : Post) : Prop :=
  0 <= forCount p /\ 0 <= againstCount p /\
  forCount p + againstCount p <= argCount p /\
  0 <= mindChanges p /\ post_author p = You.

(** What every stored argument keeps, filed under [postId]. *)
Definition arg_ok (vs : gmap ident VoteRecord) (postId : ident)
    (a : Argument) : Prop :=
  arg_postId a = postId /\
  steelmanCount a = (if steelmanned a then 1 else 0) /\
  arg_author a <> [] /\
  is_Some (vs !! arg_id a).

Definition args_ok (s : Store) : Prop :=
  Forall (fun entry => Forall (arg_ok (votes s) entry.1) entry.2) (args s).

(** Every argument of the store, in the order [toggleSteelman] goes
    through them. *)
Definition allArguments (s : Store) : list Argument :=
  concat (args s).*2.

(** A post or an argument with one field exchanged. *)
Definition with_title (title : jsstring) (p : Post) : Post :=
  mkPost (post_id p) (post_type p) title (post_body p) (post_tags p)
    (post_position p) (post_confidence p) (post_whatWouldChangeMyMind p)
    (post_author p) (post_createdAt p) (argCount p) (forCount p)
    (againstCount p) (mindChanges p).

Definition with_body (body : jsstring) (p : Post) : Post :=
  mkPost (post_id p) (post_type p) (post_title p) body (post_tags p)
    (post_position p) (post_confidence p) (post_whatWouldChangeMyMind p)
    (post_author p) (post_createdAt p) (argCount p) (forCount p)
    (againstCount p) (mindChanges p).

Definition with_tags (tags : list jsstring) (p : Post) : Post :=
  mkPost (post_id p) (post_type p) (post_title p) (post_body p) tags
    (post_position p) (post_confidence p) (post_whatWouldChangeMyMind p)
    (post_author p) (post_createdAt p) (argCount p) (forCount p)
    (againstCount p) (mindChanges p).

Definition with_arg_body (body : jsstring) (a : Argument) : Argument :=
  mkArgument (arg_id a) (arg_postId a) (arg_side a) body (arg_author a)
    (arg_createdAt a) (steelmanned a) (steelmanCount a).

(** What a post and an argument are created with; the rest of a post is
    its counters, the rest of an argument its steelman flag and count. *)
Definition post_content (p : Post) :=
  (post_id p, post_type p, post_title p, post_body p, post_tags p,
   post_position p, post_confidence p, post_whatWouldChangeMyMind p,
   post_author p, post_createdAt p).

Definition arg_content (a : Argument) :=
  (arg_id a, arg_postId a, arg_side a, arg_body a, arg_author a,
   arg_createdAt a).

(** * Part III: properties *)

(** ** Property lists *)

Section ObjFacts.
Context {V : Type}.
Implicit Types (o : obj V) (k : ident) (v : V).

Lemma obj_get_None k o : obj_get k o = None <-> k ∉ o.*1.
Proof.
  induction o as [|[k' v'] r IH]; simpl.
  - split; [intros _; apply not_elem_of_nil | done].
  - case_bool_decide as E.
    + split; [done | intros H; exfalso; apply H; subst; left].
    + rewrite IH, not_elem_of_cons. simpl. split; [split; [congruence | done] | tauto].
Qed.

Lemma obj_get_elem k v o : obj_get k o = Some v -> (k, v) ∈ o.
Proof.
  induction o as [|[k' v'] r IH]; simpl; [done|].
  case_bool_decide as E.
  - intros [= ->]. subst. left.
  - intros H. right. auto.
Qed.

Lemma obj_get_replace_eq k v o :
  is_Some (obj_get k o) -> obj_get k (obj_replace k v o) = Some v.
Proof.
  induction o as [|[k' v'] r IH]; simpl; [by intros [? ?]|].
  case_bool_decide as E; simpl.
  - by rewrite bool_decide_true.
  - rewrite bool_decide_false by done. done.
Qed.

Lemma obj_get_replace_ne k k' v o :
  k <> k' -> obj_get k' (obj_replace k v o) = obj_get k' o.
Proof.
  intros Hne. induction o as [|[k0 v0] r IH]; simpl; [done|].
  case_bool_decide as E; simpl.
  - subst k0. by rewrite !bool_decide_false.
  - by rewrite IH.
Qed.

Lemma obj_get_app k o1 o2 :
  obj_get k (o1 ++ o2) =
  match obj_get k o1 with Some v => Some v | None => obj_get k o2 end.
Proof.
  induction o1 as [|[k0 v0] r IH]; simpl; [done|].
  by case_bool_decide.
Qed.

Lemma obj_get_add_index_eq n k v o :
  obj_get k o = None -> obj_get k (obj_add_index n k v o) = Some v.
Proof.
  induction o as [|[k0 v0] r IH]; simpl.
  - by rewrite bool_decide_true.
  - case_bool_decide as E; [done|]. intros H.
    destruct (array_index k0) as [n0|]; [destruct (n0 <? n)%N|]; simpl.
    + rewrite bool_decide_false by done. auto.
    + by rewrite bool_decide_true.
    + by rewrite bool_decide_true.
Qed.

Lemma obj_get_add_index_ne n k k' v o :
  k <> k' -> obj_get k' (obj_add_index n k v o) = obj_get k' o.
Proof.
  intros Hne. induction o as [|[k0 v0] r IH]; simpl.
  - by rewrite bool_decide_false.
  - destruct (array_index k0) as [n0|]; [destruct (n0 <? n)%N|]; simpl.
    + by rewrite IH.
    + by rewrite (bool_decide_false (k = k')).
    + by rewrite (bool_decide_false (k = k')).
Qed.

Lemma obj_get_add_eq k v o :
  obj_get k o = None -> obj_get k (obj_add k v o) = Some v.
Proof.
  intros H. unfold obj_add. destruct (array_index k).
  - by apply obj_get_add_index_eq.
  - rewrite obj_get_app, H. simpl. by rewrite bool_decide_true.
Qed.

Lemma obj_get_add_ne k k' v o :
  k <> k' -> obj_get k' (obj_add k v o) = obj_get k' o.
Proof.
  intros Hne. unfold obj_add. destruct (array_index k).
  - by apply obj_get_add_index_ne.
  - rewrite obj_get_app. destruct (obj_get k' o); [done|].
    simpl. by rewrite bool_decide_false.
Qed.

Lemma obj_get_set_eq k v o : obj_get k (obj_set k v o) = Some v.
Proof.
  unfold obj_set. destruct (obj_get k o) eqn:E.
  - apply obj_get_replace_eq. by rewrite E.
  - by apply obj_get_add_eq.
Qed.

Lemma obj_get_set_ne k k' v o :
  k <> k' -> obj_get k' (obj_set k v o) = obj_get k' o.
Proof.
  intros Hne. unfold obj_set. destruct (obj_get k o).
  - by apply obj_get_replace_ne.
  - by apply obj_get_add_ne.
Qed.
End ObjFacts.

(** ** Votes *)




Lemma getVotes_vote (argId a : ident) (d : Dir) (s : Store) :
  getVotes a (fst (vote argId d s)) =
  if bool_decide (argId = a) then cast d (getVotes a s) else getVotes a s.
Proof.
  unfold getVotes, vote; simpl. case_bool_decide as E.
  - subst. by rewrite lookup_insert_eq.
  - by rewrite lookup_insert_ne.
Qed.


(** The store that [createPost] leaves, whichever way it ends. *)
Lemma store_of_step_createPost (e1 e2 : Env) (sp : PostSpec) (s : Store) :
  store_of (step (OCreatePost e1 e2 sp) s) =
  let s1 := set_posts (newPost e1 sp :: posts s) s in
  match ps_tags sp with
  | None => s1
  | Some tags =>
      let s2 := set_allTags (registerTags tags (allTags s)) s1 in
      if hasOpening sp
      then fst (createArgument e2 (uid e1) (openingSpec sp) s2)
      else s2
  end.
Proof.
  simpl. unfold createPost.
  destruct (ps_tags sp); [|done]. by destruct (hasOpening sp).
Qed.


(** C2. [vote(argId, dir)] on an existing record toggles or switches:
    voting the recorded direction again takes that vote back; otherwise
    the previous direction, if any, loses one, [dir] gains one and becomes
    the recorded direction.  The record returned is the record stored.
    From a fresh record, up then up gives 0/0/none and up then down gives
    up=0, down=1. *)
Theorem vote_toggle_or_switch (s : Store) (argId : ident) (dir : Dir)
    (v : VoteRecord) :
  votes s !! argId = Some v ->
  let r := snd (vote argId dir s) in
  let s' := fst (vote argId dir s) in
  (userVote v = Some dir ->
     counter dir r = counter dir v - 1 /\
     counter (other dir) r = counter (other dir) v /\
     userVote r = None) /\
  (userVote v = Some (other dir) ->
     counter (other dir) r = counter (other dir) v - 1 /\
     counter dir r = counter dir v + 1 /\
     userVote r = Some dir) /\
  (userVote v = None ->
     counter dir r = counter dir v + 1 /\
     counter (other dir) r = counter (other dir) v /\
     userVote r = Some dir) /\
  votes s' !! argId = Some r /\
  (v = freshVotes ->
     snd (vote argId up (fst (vote argId up s))) = mkVotes 0 0 None /\
     snd (vote argId down (fst (vote argId up s))) = mkVotes 0 1 (Some down)).
Proof.
  intros Hv r s'. subst r s'. unfold vote; simpl. rewrite Hv; simpl.
  repeat split.
  1-9: destruct v as [u w [[]|]], dir; unfold cast; simpl in *; congruence.
  - by rewrite lookup_insert_eq.
  - subst v. by rewrite lookup_insert_eq.
  - subst v. by rewrite lookup_insert_eq.
Qed.

Lemma vote_toggle_or_switch_witness :
  votes votedStore !! a1 = Some (mkVotes 1 0 (Some up)) /\
  (v_up (snd (vote a1 down votedStore)) = 1 - 1 /\
   v_down (snd (vote a1 down votedStore)) = 0 + 1 /\
   userVote (snd (vote a1 down votedStore)) = Some down).
Proof.
  split; [reflexivity|].
  destruct (vote_toggle_or_switch votedStore a1 down
              (mkVotes 1 0 (Some up)) eq_refl) as (_ & H & _).
  exact (H eq_refl).
Defined.






(** ** Lookups that miss *)





(** ** Steelman *)

Lemma flip_flip (a : Argument) : flip (flip a) = a.
Proof.
  destruct a as [i p sd b au c f n]. unfold flip; simpl.
  rewrite negb_involutive. f_equal. destruct f; simpl; lia.
Qed.

Lemma flip_id (a : Argument) : arg_id (flip a) = arg_id a.
Proof. done. Qed.

Lemma list_find_flip (argId : ident) (l : list Argument) (i : nat)
    (a : Argument) :
  list_find (is_arg argId) l = Some (i, a) ->
  list_find (is_arg argId) (<[i := flip a]> l) = Some (i, flip a).
Proof.
  intros (Hl & Hp & Hbefore)%list_find_Some. apply list_find_Some.
  split; [|split].
  - apply list_lookup_insert_eq. by eapply lookup_lt_Some.
  - done.
  - intros j y Hj Hlt. rewrite list_lookup_insert_ne in Hj by lia. eauto.
Qed.

Lemma steelman_scan_twice (argId : ident) (o o' : obj (list Argument))
    (b : bool) :
  steelman_scan argId o = Some (o', b) ->
  steelman_scan argId o' = Some (o, negb b).
Proof.
  revert o' b. induction o as [|[k l] r IH]; intros o' b; simpl; [done|].
  destruct (list_find (is_arg argId) l) as [[i a]|] eqn:E.
  - intros [= <- <-]. simpl. rewrite (list_find_flip _ _ _ _ E).
    rewrite flip_flip, list_insert_insert_eq, list_insert_id.
    + done.
    + by apply list_find_Some in E as (? & _).
  - destruct (steelman_scan argId r) as [[r' b']|] eqn:Er; [|done].
    intros [= <- <-]. simpl. rewrite E. by rewrite (IH _ _ eq_refl).
Qed.

Lemma steelman_scan_found (argId : ident) (o : obj (list Argument)) :
  Exists (fun entry => Exists (fun a => arg_id a = argId) entry.2) o ->
  is_Some (steelman_scan argId o).
Proof.
  induction o as [|[k l] r IH]; intros H; [by apply Exists_nil in H|].
  simpl. destruct (list_find (is_arg argId) l) as [[i x]|] eqn:E; [done|].
  apply Exists_cons in H as [H|H].
  - apply list_find_None in E. simpl in H.
    apply Exists_exists in H as (a & Ha & Hid).
    rewrite Forall_forall in E. by destruct (E a Ha Hid).
  - by destruct (IH H) as [[r' b'] ->].
Qed.

(** C5. When some argument of some post has the identifier, two
    [toggleSteelman] calls in a row give back the store of the start, so
    the flag and the count of that argument are as before and no other
    argument has changed; the second call answers the opposite of the
    first. *)
Theorem toggleSteelman_twice (s : Store) (argId : ident) :
  Exists (fun entry => Exists (fun a => arg_id a = argId) entry.2) (args s) ->
  let first := toggleSteelman argId s in
  let second := toggleSteelman argId (fst first) in
  fst second = s /\
  args (fst first) <> args s /\
  snd second = negb (snd first).
Proof.
  intros [[o' b] E]%steelman_scan_found. unfold toggleSteelman.
  rewrite E; simpl. rewrite (steelman_scan_twice _ _ _ _ E).
  destruct s; simpl in *. repeat split.
  intros ->. rewrite (steelman_scan_twice _ _ _ _ E) in E.
  injection E as E. by destruct b.
Qed.

Lemma toggleSteelman_twice_witness :
  Exists (fun entry => Exists (fun a => arg_id a = a3) entry.2)
    (args demoStore) /\
  fst (toggleSteelman a3 (fst (toggleSteelman a3 demoStore))) = demoStore.
Proof.
  assert (Exists (fun entry => Exists (fun a => arg_id a = a3) entry.2)
            (args demoStore)) as Hex by by_decide.
  split; [exact Hex|].
  apply (toggleSteelman_twice demoStore a3 Hex).
Defined.

(** ** Post counters *)

Lemma update_post_fmap (id : ident) (f : Post -> Post) (ps : list Post) :
  (forall p, post_id (f p) = post_id p) ->
  NoDup (post_id <$> ps) ->
  update_post id f ps = on_post id f <$> ps.
Proof.
  intros Hf. unfold update_post.
  induction ps as [|p ps IH]; [done|]. rewrite !fmap_cons, NoDup_cons.
  intros [Hp Hnd]. cbn [list_find]. unfold on_post at 1.
  destruct (decide (has_id id p)) as [Hid|Hid].
  - rewrite bool_decide_true by done. simpl. f_equal.
    rewrite <- (list_fmap_id ps) at 1. apply list_fmap_ext.
    intros i q Hq. unfold on_post. rewrite bool_decide_false; [done|].
    intros Hq'. apply Hp. unfold has_id in *. rewrite Hid, <- Hq'.
    apply list_elem_of_fmap_2. by eapply list_elem_of_lookup_2.
  - rewrite bool_decide_false by done.
    specialize (IH Hnd).
    destruct (list_find (has_id id) ps) as [[i q]|]; simpl in *;
      by f_equal.
Qed.

Lemma on_post_id (id : ident) (f : Post -> Post) (ps : list Post) :
  (forall p, post_id (f p) = post_id p) ->
  post_id <$> (on_post id f <$> ps) = post_id <$> ps.
Proof.
  intros Hf. rewrite <- list_fmap_compose. apply list_fmap_ext.
  intros i p _. simpl. unfold on_post. by case_bool_decide.
Qed.

Lemma sidesOf_createArgument (e : Env) (postId pid : ident) (sp : ArgSpec)
    (s : Store) :
  sidesOf pid (fst (createArgument e postId sp s)) =
  if bool_decide (postId = pid) then as_side sp :: sidesOf pid s
  else sidesOf pid s.
Proof.
  unfold sidesOf, getArguments, createArgument; simpl. case_bool_decide as E.
  - subst. by rewrite obj_get_set_eq.
  - by rewrite obj_get_set_ne.
Qed.

Lemma steelman_scan_sides (argId pid : ident) (o o' : obj (list Argument))
    (b : bool) :
  steelman_scan argId o = Some (o', b) ->
  arg_side <$> default [] (obj_get pid o') =
  arg_side <$> default [] (obj_get pid o).
Proof.
  revert o' b. induction o as [|[k l] r IH]; intros o' b; simpl; [done|].
  destruct (list_find (is_arg argId) l) as [[i a]|] eqn:E.
  - intros [= <- <-]. simpl. case_bool_decide; [|done]. simpl.
    apply list_find_Some in E as (Hl & _).
    rewrite list_fmap_insert. apply list_insert_id.
    by rewrite list_lookup_fmap, Hl.
  - destruct (steelman_scan argId r) as [[r' b']|] eqn:Er; [|done].
    intros [= <- <-]. simpl. case_bool_decide; [done|]. by eapply IH.
Qed.

Lemma sidesOf_toggleSteelman (argId pid : ident) (s : Store) :
  sidesOf pid (fst (toggleSteelman argId s)) = sidesOf pid s.
Proof.
  unfold sidesOf, getArguments, toggleSteelman.
  destruct (steelman_scan argId (args s)) as [[o' b]|] eqn:E; [|done].
  simpl. by eapply steelman_scan_sides.
Qed.

(** Every call files exactly [created_by] under a post. *)
Lemma sidesOf_step (op : Op) (pid : ident) (s : Store) :
  sidesOf pid (store_of (step op s)) = created_by pid op ++ sidesOf pid s.
Proof.
  destruct op as [e1 e2 sp|e postId sp|argId d|argId|postId t|st postId].
  - rewrite store_of_step_createPost. cbv zeta. cbn [created_by].
    destruct (ps_tags sp) as [tags|]; [|done].
    destruct (hasOpening sp); [|by rewrite andb_false_r].
    rewrite sidesOf_createArgument, andb_true_r. by case_bool_decide.
  - cbn [step store_of created_by]. rewrite sidesOf_createArgument.
    by case_bool_decide.
  - done.
  - cbn [step store_of created_by]. by rewrite sidesOf_toggleSteelman.
  - done.
  - cbn [step store_of created_by]. unfold setCurrentPost. by destruct st.
Qed.

Lemma reverse_created_by (pid : ident) (op : Op) :
  reverse (created_by pid op) = created_by pid op.
Proof.
  destruct op as [e1 e2 sp|e postId sp| | | |]; simpl; try done.
  - destruct (ps_tags sp); [|done]. by destruct (_ && _).
  - by case_bool_decide.
Qed.

Lemma sidesOf_run (ops : list Op) (pid : ident) (s : Store) :
  sidesOf pid (run ops s) = reverse (created pid ops) ++ sidesOf pid s.
Proof.
  revert s. induction ops as [|op ops IH]; intros s; [done|].
  unfold created, run in *. cbn [foldl mbind list_bind].
  rewrite IH, sidesOf_step, reverse_app, reverse_created_by.
  by rewrite <- app_assoc.
Qed.

Lemma tally_cons (side x : jsstring) (l : list jsstring) :
  tally side (x :: l) = tally side l + (if eqs x side then 1 else 0).
Proof.
  unfold tally, eqs. rewrite filter_cons.
  destruct (decide (x = side)).
  - rewrite bool_decide_true by done. simpl length. lia.
  - rewrite bool_decide_false by done. lia.
Qed.

Lemma counts_ok_count_argument (side : jsstring) (p : Post)
    (l : list jsstring) :
  counts_ok p l -> counts_ok (count_argument side p) (side :: l).
Proof.
  intros (Ha & Hf & Hg). unfold counts_ok. rewrite !tally_cons. simpl.
  repeat split; [lia| |]; destruct (eqs side _); lia.
Qed.

Lemma store_inv_ext (s s' : Store) :
  posts s' = posts s -> args s' = args s -> store_inv s -> store_inv s'.
Proof.
  unfold store_inv, sidesOf, getArguments. by intros -> ->.
Qed.

Lemma store_inv_createArgument (e : Env) (postId : ident) (sp : ArgSpec)
    (s : Store) :
  store_inv s -> store_inv (fst (createArgument e postId sp s)).
Proof.
  intros [Hnd Hc].
  assert (posts (fst (createArgument e postId sp s)) =
          on_post postId (count_argument (as_side sp)) <$> posts s) as Hps.
  { unfold createArgument; simpl. by apply update_post_fmap. }
  split.
  - rewrite Hps, on_post_id; done.
  - intros p'. rewrite Hps. intros (p & -> & Hp)%list_elem_of_fmap.
    rewrite sidesOf_createArgument. unfold on_post.
    destruct (decide (has_id postId p)) as [Hid|Hid].
    + rewrite bool_decide_true by done. unfold has_id in Hid. simpl.
      rewrite bool_decide_true by done. rewrite Hid.
      apply counts_ok_count_argument. rewrite <- Hid. by apply Hc.
    + rewrite bool_decide_false by done.
      rewrite bool_decide_false by (intros E; by apply Hid). by apply Hc.
Qed.

Lemma store_inv_newPost (e : Env) (sp : PostSpec) (s : Store) :
  store_inv s ->
  uid e ∉ post_id <$> posts s -> uid e ∉ (args s).*1 ->
  store_inv (set_posts (newPost e sp :: posts s) s).
Proof.
  intros [Hnd Hc] Hp Ha. split; simpl.
  - by apply NoDup_cons.
  - intros p [->|Hin]%elem_of_cons.
    + unfold sidesOf, getArguments; simpl.
      apply obj_get_None in Ha. by rewrite Ha.
    + by apply Hc.
Qed.

Lemma store_inv_step (op : Op) (s : Store) :
  store_inv s -> fresh_for op s = true -> store_inv (store_of (step op s)).
Proof.
  intros Hinv Hfresh.
  destruct op as [e1 e2 sp|e postId sp|argId d|argId|postId t|st postId].
  - rewrite store_of_step_createPost. cbv zeta.
    apply andb_true_iff in Hfresh as [Hp Ha].
    apply bool_decide_eq_true in Hp, Ha.
    pose proof (store_inv_newPost e1 sp s Hinv Hp Ha) as H1.
    destruct (ps_tags sp) as [tags|]; [|done].
    assert (store_inv (set_allTags (registerTags tags (allTags s))
                         (set_posts (newPost e1 sp :: posts s) s))) as H2
      by (by eapply store_inv_ext; [| |exact H1]).
    destruct (hasOpening sp); [|done]. by apply store_inv_createArgument.
  - by apply store_inv_createArgument.
  - by eapply store_inv_ext; [| |exact Hinv].
  - cbn [step store_of]. destruct Hinv as [Hnd Hc].
    assert (posts (fst (toggleSteelman argId s)) = posts s) as Hps.
    { unfold toggleSteelman. by destruct (steelman_scan _ _) as [[??]|]. }
    split; rewrite Hps; [done|]. intros p Hp.
    rewrite sidesOf_toggleSteelman. by apply Hc.
  - cbn [step store_of]. destruct Hinv as [Hnd Hc].
    unfold declareMindChange. split; simpl.
    + rewrite update_post_fmap, on_post_id; done.
    + rewrite update_post_fmap by done.
      intros p' (p & -> & Hp)%list_elem_of_fmap. unfold on_post.
      case_bool_decide; by apply (Hc p).
  - cbn [step store_of]. unfold setCurrentPost. destruct st; [|done].
    by eapply store_inv_ext; [| |exact Hinv].
Qed.

Lemma store_inv_run (ops : list Op) (s : Store) :
  store_inv s -> fresh_uids ops s = true -> store_inv (run ops s).
Proof.
  revert s. induction ops as [|op ops IH]; intros s Hinv Hfresh; [done|].
  simpl in Hfresh. apply andb_true_iff in Hfresh as [H1 H2].
  apply IH; [by apply store_inv_step | done].
Qed.

Lemma store_inv_empty : store_inv emptyStore.
Proof. split; simpl; [constructor | by intros p ?%elem_of_nil]. Qed.

Lemma tally_for_against (l : list jsstring) :
  tally FOR l + tally AGAINST l =
  Z.of_nat (length (filter forOrAgainst l)).
Proof.
  induction l as [|x l IH]; [done|].
  rewrite !tally_cons, filter_cons. unfold eqs, forOrAgainst in *.
  destruct (decide (x = FOR)) as [->|Hf].
  - rewrite bool_decide_true, bool_decide_false by done.
    rewrite decide_True by auto. simpl length. lia.
  - rewrite (bool_decide_false (x = FOR)) by done.
    destruct (decide (x = AGAINST)) as [->|Hg].
    + rewrite bool_decide_true by done.
      rewrite decide_True by auto. simpl length. lia.
    + rewrite bool_decide_false by done.
      rewrite decide_False by tauto. lia.
Qed.

(** C3. Start from the empty store and let every post receive a new
    identifier.  After any sequence of calls, a post on which the sequence
    created K arguments of side "for" and M of side "against" (the opening
    argument of [createPost] included) has forCount = K and
    againstCount = M; the arguments filed under it are the ones created;
    forCount + againstCount is the number of them whose side is "for" or
    "against"; argCount is the number of arguments created, which is K + M
    when they all are "for" or "against". *)
Theorem post_counts (ops : list Op) (p : Post) :
  fresh_uids ops emptyStore = true ->
  p ∈ posts (run ops emptyStore) ->
  let sides := created (post_id p) ops in
  forCount p = tally FOR sides /\
  againstCount p = tally AGAINST sides /\
  argCount p = Z.of_nat (length sides) /\
  sidesOf (post_id p) (run ops emptyStore) = reverse sides /\
  forCount p + againstCount p = Z.of_nat (length (filter forOrAgainst sides)) /\
  (Forall forOrAgainst sides -> argCount p = tally FOR sides + tally AGAINST sides).
Proof.
  intros Hfresh Hp sides.
  destruct (store_inv_run ops emptyStore store_inv_empty Hfresh) as [_ Hc].
  destruct (Hc p Hp) as (Ha & Hf & Hg).
  rewrite sidesOf_run in Ha, Hf, Hg. fold sides in Ha, Hf, Hg.
  change (sidesOf (post_id p) emptyStore) with (@nil jsstring) in *.
  rewrite app_nil_r in Ha, Hf, Hg.
  assert (forall x, tally x (reverse sides) = tally x sides) as Hrev.
  { intros x. unfold tally. by rewrite filter_reverse, length_reverse. }
  rewrite Hrev in Hf, Hg. rewrite length_reverse in Ha.
  repeat split; try done.
  - rewrite sidesOf_run. by rewrite app_nil_r.
  - rewrite Hf, Hg. apply tally_for_against.
  - intros Hall. rewrite Ha, tally_for_against. do 2 f_equal.
    symmetry. clear -Hall. induction Hall as [|x l Hx _ IH]; [done|].
    rewrite filter_cons, decide_True by done. by rewrite IH.
Qed.

Lemma post_counts_witness :
  fresh_uids demoOps emptyStore = true /\
  demoPost ∈ posts (run demoOps emptyStore) /\
  forCount demoPost = tally FOR (created (post_id demoPost) demoOps) /\
  againstCount demoPost = tally AGAINST (created (post_id demoPost) demoOps) /\
  argCount demoPost = Z.of_nat (length (created (post_id demoPost) demoOps)).
Proof.
  assert (fresh_uids demoOps emptyStore = true) as Hfresh
    by (vm_compute; reflexivity).
  assert (demoPost ∈ posts (run demoOps emptyStore)) as Hin
    by (vm_compute; apply list_elem_of_here).
  split; [exact Hfresh|]. split; [exact Hin|].
  destruct (post_counts demoOps demoPost Hfresh Hin) as (H1 & H2 & H3 & _).
  auto.
Defined.

(** ** Tag vocabulary *)

Lemma registerTags_prefix (tags vocabulary : list jsstring) :
  vocabulary `prefix_of` registerTags tags vocabulary.
Proof.
  revert vocabulary. induction tags as [|t ts IH]; intros v; [done|].
  unfold registerTags in *. simpl. etrans; [|apply IH].
  unfold registerTag. case_bool_decide; [done|]. by apply prefix_app_r.
Qed.

Lemma registerTags_length (tags vocabulary : list jsstring) :
  length (registerTags tags vocabulary) =
  (length vocabulary + length (newTags tags vocabulary))%nat.
Proof.
  revert vocabulary. induction tags as [|t ts IH]; intros v.
  { simpl. unfold newTags. simpl. lia. }
  unfold registerTags in *. cbn [foldl]. rewrite IH. unfold registerTag.
  unfold newTags. rewrite filter_cons.
  destruct (decide (t ∈ v)) as [Hin|Hin].
  - rewrite bool_decide_true by done. by rewrite decide_False by tauto.
  - rewrite bool_decide_false by done. rewrite decide_True by done.
    rewrite length_app. simpl length.
    cut (t :: remove_dups (filter (fun x => x ∉ v ++ [t]) ts)
         ≡ₚ remove_dups (t :: filter (fun x => x ∉ v) ts)).
    { intros HP. apply Permutation_length in HP. simpl in HP. lia. }
    apply NoDup_Permutation.
    + apply NoDup_cons. split; [|apply NoDup_remove_dups].
      rewrite elem_of_remove_dups, list_elem_of_filter, elem_of_app.
      intros [Hn _]. apply Hn. right. left.
    + apply NoDup_remove_dups.
    + intros x. rewrite elem_of_remove_dups, !elem_of_cons.
      rewrite elem_of_remove_dups, !list_elem_of_filter, elem_of_app.
      rewrite list_elem_of_singleton.
      destruct (decide (x = t)) as [->|Hne]; [tauto|]. tauto.
Qed.

Lemma allTags_step (op : Op) (s : Store) :
  allTags s `prefix_of` allTags (store_of (step op s)).
Proof.
  destruct op as [e1 e2 sp|e postId sp|argId d|argId|postId t|st postId].
  - rewrite store_of_step_createPost. cbv zeta.
    destruct (ps_tags sp) as [tags|]; [|done].
    destruct (hasOpening sp); apply registerTags_prefix.
  - done.
  - done.
  - cbn [step store_of]. unfold toggleSteelman.
    by destruct (steelman_scan _ _) as [[??]|].
  - done.
  - cbn [step store_of]. unfold setCurrentPost. by destruct st.
Qed.

(** C4. [createPost] with a list of tags makes the vocabulary longer by
    the number of supplied tags that it did not hold, a tag that is
    supplied more than once being one tag (without repetitions this is the
    number of list entries that the vocabulary did not hold).  Every
    supplied tag is in the vocabulary afterwards, and the vocabulary never
    loses a tag: after any sequence of calls the old vocabulary is still
    there, as the first part of the new one. *)
Theorem tag_vocabulary_grows (e1 e2 : Env) (sp : PostSpec) (s : Store)
    (tags : list jsstring) :
  ps_tags sp = Some tags ->
  length (allTags (store_of (createPost e1 e2 sp s))) =
    (length (allTags s) + length (newTags tags (allTags s)))%nat /\
  (NoDup tags ->
     length (newTags tags (allTags s)) =
     length (filter (fun t => t ∉ allTags s) tags)) /\
  (forall t, t ∈ tags -> t ∈ allTags (store_of (createPost e1 e2 sp s))) /\
  (forall (ops : list Op) (s0 : Store),
     allTags s0 `prefix_of` allTags (run ops s0)).
Proof.
  intros Htags. split; [|split; [|split]].
  2: { intros Hnd. unfold newTags. apply Permutation_length.
       apply NoDup_Permutation; [apply NoDup_remove_dups | |].
       - by apply NoDup_filter.
       - intros x. apply elem_of_remove_dups. }
  - unfold createPost. rewrite Htags. cbv zeta.
    destruct (hasOpening sp); simpl; apply registerTags_length.
  - assert (allTags (store_of (createPost e1 e2 sp s)) =
            registerTags tags (allTags s)) as ->.
    { unfold createPost. rewrite Htags. cbv zeta.
      by destruct (hasOpening sp). }
    clear. generalize (allTags s) as v. unfold registerTags.
    induction tags as [|t ts IH]; intros v x Hx; [by apply elem_of_nil in Hx|].
    apply elem_of_cons in Hx as [->|Hx]; [|by apply IH].
    simpl. eapply elem_of_prefix; [|apply (registerTags_prefix ts)].
    unfold registerTag. case_bool_decide; [done|].
    apply elem_of_app. right. left.
  - intros ops. induction ops as [|op ops IH]; intros s0; [done|].
    simpl. etrans; [apply (allTags_step op)|apply IH].
Qed.

Lemma tag_vocabulary_grows_witness :
  ps_tags demoSpec = Some [lit "ethics"; lit "stoicism"; lit "stoicism"] /\
  length (allTags (store_of (createPost (mkEnv p1 1000) (mkEnv a1 1001)
                               demoSpec emptyStore))) =
  (length (allTags emptyStore) +
   length (newTags [lit "ethics"; lit "stoicism"; lit "stoicism"]
             (allTags emptyStore)))%nat.
Proof.
  split; [reflexivity|].
  apply (tag_vocabulary_grows (mkEnv p1 1000) (mkEnv a1 1001) demoSpec
           emptyStore _ eq_refl).
Defined.

(** ** Argument sides *)

Lemma openingSide_forOrAgainst (position : option jsstring) :
  forOrAgainst (openingSide position).
Proof.
  unfold openingSide, forOrAgainst, eqs. destruct position as [p|]; [|by left].
  destruct (decide (p = FOR)) as [->|Hf].
  { rewrite bool_decide_true by done. by left. }
  rewrite (bool_decide_false (p = FOR)) by done.
  destruct (decide (p = AGAINST)) as [->|Hg].
  { rewrite bool_decide_true by done. by right. }
  rewrite bool_decide_false by done. by left.
Qed.

Lemma created_forOrAgainst (postId : ident) (ops : list Op) :
  Forall forOrAgainst (ops ≫= sides_given) ->
  Forall forOrAgainst (created postId ops).
Proof.
  unfold created. induction ops as [|op ops IH]; [done|].
  cbn [mbind list_bind]. rewrite !Forall_app. intros [Hop Hops].
  split; [|by apply IH].
  destruct op as [e1 e2 sp|e postId' sp| | | |]; simpl; try done.
  - destruct (ps_tags sp); [|done]. destruct (_ && _); [|done].
    constructor; [apply openingSide_forOrAgainst | done].
  - case_bool_decide; done.
Qed.

(** C9, as the store has it.  [createArgument] stores the side it is
    given, and the opening argument of [createPost] is "for" or "against"
    whatever the position: when every [createArgument] call is given "for"
    or "against", every argument in the store has one of the two sides. *)
Theorem argument_sides (ops : list Op) :
  Forall forOrAgainst (ops ≫= sides_given) ->
  (forall postId,
     Forall (fun a => forOrAgainst (arg_side a))
       (getArguments postId (run ops emptyStore))) /\
  (forall e postId sp s,
     arg_side (snd (createArgument e postId sp s)) = as_side sp) /\
  (forall position, forOrAgainst (openingSide position)).
Proof.
  intros Hgiven. split; [|split; [done | apply openingSide_forOrAgainst]].
  intros postId.
  pose proof (sidesOf_run ops postId emptyStore) as Hrun.
  change (sidesOf postId emptyStore) with (@nil jsstring) in Hrun.
  rewrite app_nil_r in Hrun. unfold sidesOf in Hrun.
  apply (Forall_fmap arg_side forOrAgainst). rewrite Hrun.
  apply Forall_reverse. by apply created_forOrAgainst.
Qed.

Lemma argument_sides_witness :
  Forall forOrAgainst (demoOps ≫= sides_given) /\
  Forall (fun a => forOrAgainst (arg_side a)) (getArguments p1 demoStore).
Proof.
  assert (Forall forOrAgainst (demoOps ≫= sides_given)) as Hgiven
    by by_decide.
  split; [exact Hgiven|].
  apply (argument_sides demoOps Hgiven).
Defined.


(** [createArgument] with the side "neutral": the argument is stored, and
    its side is neither "for" nor "against". *)
Lemma createArgument_stores_any_side :
  let result := createArgument (mkEnv a1 1000) p1 neutralSpec emptyStore in
  snd result ∈ getArguments p1 (fst result) /\
  ~ forOrAgainst (arg_side (snd result)).
Proof.
  split.
  - vm_compute. apply list_elem_of_here.
  - vm_compute. by intros [?|?].
Qed.

(** ** Failure *)

(** Only [createPost] without [tags] fails to return. *)
Lemma step_completes (op : Op) (s : Store) :
  completes (step op s) =
  match op with
  | OCreatePost _ _ sp => bool_decide (is_Some (ps_tags sp))
  | _ => true
  end.
Proof.
  destruct op as [e1 e2 sp| | | | |]; try done.
  simpl. unfold createPost. destruct (ps_tags sp); [|done].
  by destruct (hasOpening sp).
Qed.

(** C6, on a specification without [tags]: the post is stored with the
    empty tag list, then [tags.forEach] raises and [createPost] does not
    return. *)
Theorem createPost_without_tags_throws :
  completes (createPost (mkEnv p1 1000) (mkEnv a1 1001) bareSpec emptyStore)
    = false /\
  post_tags <$>
    posts (store_of (createPost (mkEnv p1 1000) (mkEnv a1 1001) bareSpec
                       emptyStore)) = [[]].
Proof. by vm_compute. Qed.

(** ** Escaping *)

Lemma replaceAll_bind (c : N) (r : jsstring) (f : N -> jsstring)
    (str : jsstring) :
  replaceAll c r (str ≫= f) = str ≫= (fun x => replaceAll c r (f x)).
Proof.
  unfold replaceAll. induction str as [|x str IH]; [done|].
  cbn [mbind list_bind]. rewrite bind_app. f_equal. apply IH.
Qed.

Lemma escHtml_chars (str : jsstring) : escHtml str = str ≫= escChar.
Proof.
  unfold escHtml. unfold replaceAll at 4. rewrite !replaceAll_bind.
  induction str as [|x str IH]; [done|].
  cbn [mbind list_bind]. f_equal; [|apply IH].
  unfold escChar, replaceAll.
  destruct (x =? 38)%N eqn:E1; [done|].
  destruct (x =? 60)%N eqn:E2; [by simpl; rewrite ?E1, ?E2|].
  destruct (x =? 62)%N eqn:E3;
    [by simpl; rewrite ?E1, ?E2; simpl; rewrite ?E3|].
  destruct (x =? 34)%N eqn:E4;
    simpl; rewrite ?E1, ?E2; simpl; rewrite ?E3; simpl; by rewrite ?E4.
Qed.

(** What [escHtml] returns holds no [<], no [>] and no double quote. *)
Lemma escHtml_safe (str : jsstring) (c : N) :
  c ∈ escHtml str -> c <> 60%N /\ c <> 62%N /\ c <> 34%N.
Proof.
  rewrite escHtml_chars. intros (x & Hc & _)%list_elem_of_bind.
  revert c Hc. apply Forall_forall. unfold escChar.
  destruct (x =? 38)%N eqn:E1; [|destruct (x =? 60)%N eqn:E2;
    [|destruct (x =? 62)%N eqn:E3; [|destruct (x =? 34)%N eqn:E4]]].
  1-4: by repeat constructor.
  apply N.eqb_neq in E2, E3, E4. by repeat constructor.
Qed.

Lemma verbatim_piece (pieces : list jsstring) (x : jsstring) :
  x ∈ pieces -> verbatim x (concat pieces).
Proof.
  intros (l1 & l2 & ->)%list_elem_of_split.
  exists (concat l1), (concat l2). by rewrite concat_app, concat_cons.
Qed.

Lemma verbatim_trans (a b c : jsstring) :
  verbatim a b -> verbatim b c -> verbatim a c.
Proof.
  intros (b1 & b2 & ->) (c1 & c2 & ->).
  exists (c1 ++ b1), (b2 ++ c2). by rewrite <- !app_assoc.
Qed.

(** Each of the first three tags stands in the card as it is. *)
Lemma renderPostCard_tags_verbatim (clock : Z) (post : Post) (tag : jsstring) :
  tag ∈ take 3 (post_tags post) ->
  verbatim tag (renderPostCard clock post).
Proof.
  intros Htag.
  apply (verbatim_trans _ (tagSpan tag)).
  { apply verbatim_piece. find_piece. }
  apply (verbatim_trans _ (concat (tagSpan <$> take 3 (post_tags post)))).
  { apply verbatim_piece. by apply list_elem_of_fmap_2. }
  apply verbatim_piece. find_piece.
Qed.

(** The initials on an argument card are cut from the author's name and
    are not escaped either. *)
Lemma renderArgCard_initials_verbatim (toUpperCase : jsstring -> jsstring)
    (clock : Z) (s : Store) (arg : Argument) (postId : ident) :
  verbatim
    (toUpperCase (take 2 (concat (take 1 <$> split 32 (arg_author arg)))))
    (renderArgCard toUpperCase clock s arg postId).
Proof. apply verbatim_piece. find_piece. Qed.

(** C1, on a post whose tag is [<script>] and on a post whose title is:
    the card holds the tag as it is and not its escaped form, while the
    title comes out escaped. *)
Theorem renderPostCard_tag_not_escaped :
  includes markup (renderPostCard 0 taggedPost) = true /\
  includes (escHtml markup) (renderPostCard 0 taggedPost) = false /\
  includes markup (renderPostCard 0 titledPost) = false /\
  includes (escHtml markup) (renderPostCard 0 titledPost) = true.
Proof. by vm_compute. Qed.

(** * Part IV: further properties of the code *)

(** ** [escHtml] *)

Lemma escChar_plain (c : N) : special c = false -> escChar c = [c].
Proof.
  unfold special, escChar. intros H.
  repeat (apply orb_false_iff in H as [H ?]).
  by repeat match goal with E : (_ =? _)%N = false |- _ => rewrite E; clear E end.
Qed.

Lemma escChar_special (c : N) :
  special c = true ->
  exists name, escChar c = 38%N :: name /\ name <> [] /\
               Forall (fun x => special x = false) name.
Proof.
  unfold special, escChar. intros H.
  destruct (c =? 38)%N; [eexists; split; [done|]; split; [done|]; by repeat constructor|].
  destruct (c =? 60)%N; [eexists; split; [done|]; split; [done|]; by repeat constructor|].
  destruct (c =? 62)%N; [eexists; split; [done|]; split; [done|]; by repeat constructor|].
  destruct (c =? 34)%N; [eexists; split; [done|]; split; [done|]; by repeat constructor|].
  done.
Qed.

(** X1. The four replacement passes of [escHtml] come to one pass that
    rewrites each code unit on its own: the [&] of an entity that a pass
    has written is never escaped again, and escaping a concatenation is
    concatenating the escaped parts. *)
Theorem escHtml_one_pass (a b : jsstring) :
  escHtml a = a ≫= escChar /\
  escHtml (a ++ b) = escHtml a ++ escHtml b.
Proof.
  split; [apply escHtml_chars|].
  rewrite !escHtml_chars. apply bind_app.
Qed.

(** X2. The text that [escHtml] returns holds no [<], no [>] and no
    double quote, and each [&] in it is followed by the name of an entity:
    it is never the last code unit. *)
Theorem escHtml_output (str : jsstring) :
  Forall (fun c => c <> 60%N /\ c <> 62%N /\ c <> 34%N) (escHtml str) /\
  last (escHtml str) <> Some 38%N.
Proof.
  split.
  - apply Forall_forall. intros c. apply escHtml_safe.
  - rewrite escHtml_chars. induction str as [|x str IH] using rev_ind; [done|].
    rewrite bind_app. cbn [mbind list_bind]. rewrite app_nil_r.
    destruct (special x) eqn:E.
    + destruct (escChar_special x E) as (name & -> & Hne & Hall).
      destruct name as [|y name _] using rev_ind; [done|].
      rewrite app_comm_cons, app_assoc, last_snoc. intros [= ->].
      apply Forall_app in Hall as [_ Hy]. by inversion Hy.
    + rewrite (escChar_plain x E), last_snoc. intros [= ->]. done.
Qed.

Lemma escChar_cons (x : N) : exists c r, escChar x = c :: r.
Proof.
  unfold escChar.
  repeat match goal with |- context [(?a =? ?b)%N] => destruct (a =? b)%N end;
    by eexists _, _.
Qed.

(** The entities and the plain code units make a prefix-free code. *)
Lemma escChar_decode (x y : N) (r1 r2 : jsstring) :
  escChar x ++ r1 = escChar y ++ r2 -> x = y /\ r1 = r2.
Proof.
  unfold escChar.
  destruct (x =? 38)%N eqn:X1; [apply N.eqb_eq in X1|apply N.eqb_neq in X1];
  (destruct (x =? 60)%N eqn:X2; [apply N.eqb_eq in X2|apply N.eqb_neq in X2]);
  (destruct (x =? 62)%N eqn:X3; [apply N.eqb_eq in X3|apply N.eqb_neq in X3]);
  (destruct (x =? 34)%N eqn:X4; [apply N.eqb_eq in X4|apply N.eqb_neq in X4]);
  try (exfalso; congruence);
  (destruct (y =? 38)%N eqn:Y1; [apply N.eqb_eq in Y1|apply N.eqb_neq in Y1]);
  (destruct (y =? 60)%N eqn:Y2; [apply N.eqb_eq in Y2|apply N.eqb_neq in Y2]);
  (destruct (y =? 62)%N eqn:Y3; [apply N.eqb_eq in Y3|apply N.eqb_neq in Y3]);
  (destruct (y =? 34)%N eqn:Y4; [apply N.eqb_eq in Y4|apply N.eqb_neq in Y4]);
  try (exfalso; congruence);
  simpl; intros [=]; subst; try done; exfalso; congruence.
Qed.

(** X3. [escHtml] loses nothing: two texts with the same escaped form are
    the same text. *)
Theorem escHtml_injective (a b : jsstring) :
  escHtml a = escHtml b -> a = b.
Proof.
  rewrite !escHtml_chars. revert b.
  induction a as [|x a IH]; intros [|y b]; cbn [mbind list_bind].
  - done.
  - destruct (escChar_cons y) as (c & r & ->). done.
  - destruct (escChar_cons x) as (c & r & ->). done.
  - intros [-> Hrest]%escChar_decode. f_equal. by apply IH.
Qed.

Lemma escHtml_injective_witness :
  escHtml (lit "a<b") = escHtml (lit "a<b") /\ lit "a<b" = lit "a<b".
Proof.
  split; [reflexivity|].
  apply (escHtml_injective (lit "a<b") (lit "a<b")). reflexivity.
Defined.

Lemma escHtml_length (s : jsstring) : (length s <= length (escHtml s))%nat.
Proof.
  rewrite escHtml_chars. induction s as [|x s IH]; [done|].
  cbn [mbind list_bind]. rewrite length_app.
  destruct (escChar_cons x) as (c & r & ->). simpl. lia.
Qed.

(** X4. [escHtml] never makes a text shorter, and it returns the text as
    it is exactly when the text has none of [&], [<], [>] and the double
    quote; an apostrophe, for one, is left alone. *)
Theorem escHtml_unchanged_iff (s : jsstring) :
  (length s <= length (escHtml s))%nat /\
  (escHtml s = s <-> Forall (fun c => special c = false) s).
Proof.
  split; [apply escHtml_length|].
  induction s as [|x s IH]; [done|].
  assert (escHtml (x :: s) = escChar x ++ escHtml s) as ->.
  { by rewrite !escHtml_chars. }
  rewrite Forall_cons. destruct (special x) eqn:E.
  - split; [|by intros [? _]]. intros H. exfalso.
    destruct (escChar_special x E) as (name & Hx & Hne & _).
    apply (f_equal length) in H. rewrite Hx in H.
    destruct name; [done|]. simpl in H. rewrite length_app in H.
    pose proof (escHtml_length s). simpl in H. lia.
  - rewrite (escChar_plain x E). simpl. rewrite <- IH.
    split; [by intros [= ?]|by intros [_ ->]].
Qed.

(** ** [timeAgo] *)

(** X9. [timeAgo] by the age in milliseconds.  Under a minute, and for a
    timestamp that lies in the future, it says [Just now]; then it counts
    whole minutes from 1 to 59, whole hours from 1 to 23, and whole days
    from 1 on; the unit is never put in the singular. *)
Theorem timeAgo_ranges (clock iso : Z) :
  let age := clock - iso in
  (age < 60000 -> timeAgo clock iso = lit "Just now") /\
  (60000 <= age < 3600000 ->
     exists m, 1 <= m <= 59 /\ m = age / 60000 /\
               timeAgo clock iso = num m ++ lit " min ago") /\
  (3600000 <= age < 86400000 ->
     exists h, 1 <= h <= 23 /\ h = age / 3600000 /\
               timeAgo clock iso = num h ++ lit " hr ago") /\
  (86400000 <= age ->
     exists d, 1 <= d /\ d = age / 86400000 /\
               timeAgo clock iso = num d ++ lit " days ago").
Proof.
  intros age. unfold timeAgo. fold age.
  assert (forall k, 0 < k -> age / 1000 / k = age / (1000 * k)) as Hdiv
    by (intros k Hk; rewrite Z.div_div; lia).
  assert (forall k, 0 < k -> (age / 1000 <? k) = (age <? 1000 * k)) as Hlt.
  { intros k Hk. apply eq_true_iff_eq. rewrite !Z.ltb_lt. split; intros H.
    - destruct (Z.lt_ge_cases age (1000 * k)) as [|Hge]; [done|].
      apply Z.div_le_lower_bound in Hge; lia.
    - apply Z.div_lt_upper_bound; lia. }
  rewrite !Hlt, !Hdiv by lia.
  change (1000 * 60) with 60000. change (1000 * 3600) with 3600000.
  change (1000 * 86400) with 86400000.
  split; [|split; [|split]].
  - intros H. by rewrite (proj2 (Z.ltb_lt _ _) H).
  - intros [H1 H2]. exists (age / 60000).
    rewrite (proj2 (Z.ltb_ge _ _) H1), (proj2 (Z.ltb_lt _ _) H2).
    split; [|done]. split; [apply Z.div_le_lower_bound; lia|].
    cut (age / 60000 < 60); [lia|]. apply Z.div_lt_upper_bound; lia.
  - intros [H1 H2]. exists (age / 3600000).
    rewrite (proj2 (Z.ltb_ge age 60000)), (proj2 (Z.ltb_ge age 3600000)),
      (proj2 (Z.ltb_lt _ _) H2) by lia.
    split; [|done]. split; [apply Z.div_le_lower_bound; lia|].
    cut (age / 3600000 < 24); [lia|]. apply Z.div_lt_upper_bound; lia.
  - intros H1. exists (age / 86400000).
    rewrite (proj2 (Z.ltb_ge age 60000)), (proj2 (Z.ltb_ge age 3600000)),
      (proj2 (Z.ltb_ge age 86400000)) by lia.
    split; [|done]. apply Z.div_le_lower_bound; lia.
Qed.

Lemma timeAgo_ranges_witness :
  60000 <= 125000 - 0 < 3600000 /\
  timeAgo 125000 0 = lit "2 min ago".
Proof.
  assert (60000 <= 125000 - 0 < 3600000) as H by lia.
  split; [exact H|].
  destruct (timeAgo_ranges 125000 0) as (_ & Hmin & _).
  destruct (Hmin H) as (m & _ & -> & ->). reflexivity.
Defined.

(** ** Posts *)

Lemma update_post_cons (id : ident) (f : Post -> Post) (p : Post)
    (ps : list Post) :
  update_post id f (p :: ps) =
  if bool_decide (has_id id p) then f p :: ps
  else p :: update_post id f ps.
Proof.
  unfold update_post. cbn [list_find].
  destruct (decide (has_id id p)).
  - by rewrite bool_decide_true.
  - rewrite bool_decide_false by done.
    by destruct (list_find (has_id id) ps) as [[i q]|].
Qed.

Lemma getPost_cons (id : ident) (p : Post) (ps : list Post) (s : Store) :
  getPost id (set_posts (p :: ps) s) =
  if bool_decide (has_id id p) then Some p else getPost id (set_posts ps s).
Proof.
  unfold getPost. cbn [posts set_posts list_find].
  destruct (decide (has_id id p)).
  - by rewrite bool_decide_true.
  - rewrite bool_decide_false by done.
    by destruct (list_find (has_id id) ps) as [[i q]|].
Qed.

(** Looking a post up after the in-place update of the post [id]. *)
Lemma getPost_update_post (id id' : ident) (f : Post -> Post) (s : Store) :
  (forall p, post_id (f p) = post_id p) ->
  getPost id' (set_posts (update_post id f (posts s)) s) =
  (if bool_decide (id = id') then f else fun p => p) <$> getPost id' s.
Proof.
  intros Hf.
  replace (getPost id' s) with (getPost id' (set_posts (posts s) s))
    by by destruct s.
  induction (posts s) as [|p ps IH]; [done|].
  rewrite update_post_cons, (getPost_cons id' p ps).
  destruct (decide (has_id id p)) as [Hp|Hp].
  - rewrite (bool_decide_true (has_id id p)) by done.
    rewrite getPost_cons.
    destruct (decide (has_id id' p)) as [Hp'|Hp'].
    + rewrite (bool_decide_true (has_id id' (f p)))
        by (unfold has_id in *; by rewrite Hf).
      rewrite (bool_decide_true (has_id id' p)) by done.
      rewrite (bool_decide_true (id = id'))
        by (unfold has_id in *; congruence). done.
    + rewrite (bool_decide_false (has_id id' (f p)))
        by (unfold has_id in *; by rewrite Hf).
      rewrite (bool_decide_false (has_id id' p)) by done.
      rewrite (bool_decide_false (id = id'))
        by (unfold has_id in *; congruence).
      by destruct (getPost id' (set_posts ps s)).
  - rewrite (bool_decide_false (has_id id p)) by done.
    rewrite getPost_cons, IH.
    destruct (decide (has_id id' p)) as [Hp'|Hp'].
    + rewrite !bool_decide_true by done. simpl.
      rewrite bool_decide_false; [done|]. unfold has_id in *. congruence.
    + by rewrite !(bool_decide_false (has_id id' p)) by done.
Qed.


(** The post that [createPost] leaves at the head of [posts]. *)
Lemma createPost_posts (e1 e2 : Env) (sp : PostSpec) (s : Store) :
  posts (store_of (createPost e1 e2 sp s)) =
  createdPost e1 sp :: posts s.
Proof.
  unfold createPost, createdPost. destruct (ps_tags sp) as [tags|]; [|done].
  destruct (hasOpening sp); [|done].
  cbn [store_of]. unfold createArgument. cbn [fst posts set_allTags set_posts].
  rewrite update_post_cons. by rewrite bool_decide_true.
Qed.

(** X10. [createPost] puts the new post in front of the older posts, which
    stay as they were, also when the call throws for want of [tags]; the
    post counts its opening argument.  [getPost] with the new identifier
    answers the new post, even when an older post carries the same
    identifier, and every other identifier answers as before. *)
Theorem createPost_stores_post (e1 e2 : Env) (sp : PostSpec) (s : Store) :
  let s' := store_of (createPost e1 e2 sp s) in
  getAllPosts s' = createdPost e1 sp :: getAllPosts s /\
  getPost (uid e1) s' = Some (createdPost e1 sp) /\
  (forall id, id <> uid e1 -> getPost id s' = getPost id s).
Proof.
  intros s'. pose proof (createPost_posts e1 e2 sp s) as Hps. fold s' in Hps.
  assert (post_id (createdPost e1 sp) = uid e1) as Hid.
  { unfold createdPost. destruct (ps_tags sp); [|done].
    by destruct (hasOpening sp). }
  split; [done|]. unfold getPost. rewrite Hps. cbn [list_find].
  split.
  - by rewrite decide_True.
  - intros id Hne. rewrite decide_False by (unfold has_id; congruence).
    by destruct (list_find (has_id id) (posts s)) as [[i q]|].
Qed.

Lemma openingSide_cases (position : option jsstring) :
  (position = Some AGAINST /\ openingSide position = AGAINST) \/
  (position <> Some AGAINST /\ openingSide position = FOR).
Proof.
  unfold openingSide, eqs. destruct position as [p|]; [|by right].
  destruct (decide (p = FOR)) as [->|Hf].
  { rewrite bool_decide_true by done. by right. }
  rewrite (bool_decide_false (p = FOR)) by done.
  destruct (decide (p = AGAINST)) as [->|Hg].
  { rewrite bool_decide_true by done. by left. }
  rewrite bool_decide_false by done. right. split; [congruence|done].
Qed.

(** X12. With [tags] supplied, [createPost] returns, and the post it
    returns is the stored one: it already counts the opening argument.
    Its argCount is 1 with an opening statement and 0 without, forCount +
    againstCount equals argCount, and the opening argument is counted as
    "against" only for the position "against", as "for" otherwise. *)
Theorem createPost_returns_counted_post (e1 e2 : Env) (sp : PostSpec)
    (s : Store) (tags : list jsstring) :
  ps_tags sp = Some tags ->
  let p := createdPost e1 sp in
  (exists s', createPost e1 e2 sp s = Returns s' p /\ getPost (uid e1) s' = Some p) /\
  argCount p = (if hasOpening sp then 1 else 0) /\
  forCount p + againstCount p = argCount p /\
  (againstCount p = 1 <->
     hasOpening sp = true /\ ps_position sp = Some AGAINST).
Proof.
  intros Htags p.
  pose proof (createPost_posts e1 e2 sp s) as Hps.
  assert (post_id (createdPost e1 sp) = uid e1) as Hid.
  { unfold createdPost. rewrite Htags. by destruct (hasOpening sp). }
  split.
  - exists (store_of (createPost e1 e2 sp s)). split.
    + revert Hps. unfold createPost. rewrite Htags. cbv zeta.
      destruct (hasOpening sp) eqn:Ho; cbn [store_of].
      * intros ->. done.
      * intros _. subst p. unfold createdPost. by rewrite Htags, Ho.
    + unfold getPost. rewrite Hps. cbn [list_find].
      by rewrite decide_True.
  - subst p. unfold createdPost. rewrite Htags.
    destruct (hasOpening sp); [|by split; [|split; [|split; [|intros []]]]].
    unfold count_argument, eqs; simpl.
    destruct (openingSide_cases (ps_position sp)) as [[Hp ->]|[Hp ->]].
    + rewrite bool_decide_false, bool_decide_true by done.
      by repeat split.
    + rewrite bool_decide_true, bool_decide_false by done.
      split; [done|]. split; [done|]. split; [done|]. by intros [_ ?].
Qed.

Lemma createPost_returns_counted_post_witness :
  ps_tags demoSpec = Some [lit "ethics"; lit "stoicism"; lit "stoicism"] /\
  argCount (createdPost (mkEnv p1 1000) demoSpec) = 1.
Proof.
  split; [reflexivity|].
  destruct (createPost_returns_counted_post (mkEnv p1 1000) (mkEnv a1 1001)
              demoSpec emptyStore _ eq_refl) as (_ & H & _).
  exact H.
Defined.

(** ** Arguments *)

Lemma createArgument_other_lists (e : Env) (postId pid : ident)
    (sp : ArgSpec) (s : Store) :
  pid <> postId ->
  getArguments pid (fst (createArgument e postId sp s)) = getArguments pid s.
Proof.
  intros Hne. unfold createArgument, getArguments. cbn [fst args].
  by rewrite obj_get_set_ne.
Qed.

Lemma createArgument_getPost (e : Env) (postId : ident) (sp : ArgSpec)
    (s : Store) :
  getPost postId (fst (createArgument e postId sp s)) =
  count_argument (as_side sp) <$> getPost postId s.
Proof.
  change (getPost postId (fst (createArgument e postId sp s)))
    with (getPost postId (set_posts (update_post postId
            (count_argument (as_side sp)) (posts s)) s)).
  rewrite getPost_update_post by done. by rewrite bool_decide_true.
Qed.


Lemma createArgument_posts_args (e : Env) (postId : ident) (sp : ArgSpec)
    (s : Store) :
  posts (fst (createArgument e postId sp s)) =
    update_post postId (count_argument (as_side sp)) (posts s) /\
  getArguments postId (fst (createArgument e postId sp s)) =
    snd (createArgument e postId sp s) :: getArguments postId s.
Proof.
  unfold createArgument, getArguments. cbn [fst snd posts args].
  by rewrite obj_get_set_eq.
Qed.


(** ** The opening argument *)

Lemma trim_start_spaces (s : jsstring) :
  Forall (fun c => is_space c = true) (trim_start s) <->
  Forall (fun c => is_space c = true) s.
Proof.
  induction s as [|c s IH]; [done|]. simpl.
  destruct (is_space c) eqn:E; [|done].
  rewrite IH, Forall_cons. tauto.
Qed.

Lemma trim_start_nil (s : jsstring) :
  trim_start s = [] <-> Forall (fun c => is_space c = true) s.
Proof.
  induction s as [|c s IH]; [done|]. simpl.
  destruct (is_space c) eqn:E.
  - rewrite IH, Forall_cons. tauto.
  - split; [done|]. intros [H _]%Forall_cons. congruence.
Qed.

(** [trim] leaves nothing exactly of the texts that are all white space. *)
Lemma trim_nil (s : jsstring) :
  trim s = [] <-> Forall (fun c => is_space c = true) s.
Proof.
  unfold trim. rewrite <- trim_start_spaces, <- (Forall_reverse _ (trim_start s)).
  rewrite <- trim_start_nil. split.
  - intros H. apply (f_equal reverse) in H. by rewrite reverse_involutive in H.
  - by intros ->.
Qed.

(** X11. [createPost] (with [tags] supplied) creates an opening argument
    exactly when the opening statement has a code unit that is not white
    space.  The argument is then filed in front of the arguments of the
    new identifier, with the statement as it was given (not trimmed) as
    its body, the author "You", and the side of the position or "for";
    otherwise those arguments are left as they are. *)
Theorem createPost_opening (e1 e2 : Env) (sp : PostSpec) (s : Store)
    (tags : list jsstring) :
  ps_tags sp = Some tags ->
  let s' := store_of (createPost e1 e2 sp s) in
  (hasOpening sp = true <->
     exists text, ps_openingArgument sp = Some text /\
                  Exists (fun c => is_space c = false) text) /\
  (hasOpening sp = true ->
     forall text, ps_openingArgument sp = Some text ->
       getArguments (uid e1) s' =
       mkArgument (uid e2) (uid e1) (openingSide (ps_position sp)) text You
         (now e2) false 0 :: getArguments (uid e1) s) /\
  (hasOpening sp = false ->
     getArguments (uid e1) s' = getArguments (uid e1) s /\
     votes s' = votes s).
Proof.
  intros Htags s'. split; [|split].
  - unfold hasOpening. destruct (ps_openingArgument sp) as [text|]; simpl.
    2: { split; [done|]. by intros (? & ? & _). }
    split.
    + intros [_ Ht]%andb_true_iff. exists text. split; [done|].
      destruct (trim text) as [|c r] eqn:E; [done|].
      apply Exists_exists.
      destruct (decide (Forall (fun c => is_space c = true) text)) as [Hall|Hn].
      { apply trim_nil in Hall. congruence. }
      apply not_Forall_Exists in Hn; [|intros x; apply _].
      apply Exists_exists in Hn as (x & Hx & Hsp). exists x. split; [done|].
      by apply not_true_is_false.
    + intros (? & [= <-] & Hex). apply andb_true_iff.
      assert (trim text <> []) as Hne.
      { intros Hnil%trim_nil. apply Exists_exists in Hex as (x & Hx & Hsp).
        rewrite Forall_forall in Hnil. specialize (Hnil x Hx). congruence. }
      split.
      * destruct text; [|done]. by apply Exists_nil in Hex.
      * by destruct (trim text).
  - intros Ho text Htext. subst s'. unfold createPost.
    rewrite Htags, Ho. cbv zeta. cbn [store_of].
    destruct (createArgument_posts_args e2 (uid e1) (openingSpec sp)
      (set_allTags (registerTags tags (allTags (set_posts (newPost e1 sp :: posts s) s)))
         (set_posts (newPost e1 sp :: posts s) s))) as [_ Hargs].
    cbn [post_id newPost]. rewrite Hargs.
    unfold createArgument, openingSpec. cbn [snd].
    by rewrite Htext.
  - intros Ho. subst s'. unfold createPost. by rewrite Htags, Ho.
Qed.

Lemma createPost_opening_witness :
  ps_tags demoSpec = Some [lit "ethics"; lit "stoicism"; lit "stoicism"] /\
  hasOpening demoSpec = true /\
  getArguments p1 (store_of (createPost (mkEnv p1 1000) (mkEnv a1 1001)
                               demoSpec emptyStore)) =
  [mkArgument a1 p1 FOR (lit "Opening") You 1001 false 0].
Proof.
  split; [reflexivity|]. split; [reflexivity|].
  destruct (createPost_opening (mkEnv p1 1000) (mkEnv a1 1001) demoSpec
              emptyStore _ eq_refl) as (_ & H & _).
  exact (H eq_refl (lit "Opening") eq_refl).
Defined.

(** ** Votes *)

Lemma cast_cast (d : Dir) (v : VoteRecord) :
  userVote v <> Some (other d) -> cast d (cast d v) = v.
Proof.
  destruct v as [u w [[]|]], d; unfold cast, set_userVote; simpl; intros H;
    try congruence; f_equal; lia.
Qed.

Lemma cast_cast_switch (d : Dir) (v : VoteRecord) :
  userVote v = Some (other d) ->
  cast d (cast d v) =
  set_userVote None (set_counter (other d) (counter (other d) v - 1) v).
Proof.
  destruct v as [u w [[]|]], d; unfold cast, set_userVote; simpl; intros H;
    try congruence; f_equal; lia.
Qed.

Lemma cast_thrice (d : Dir) (v : VoteRecord) :
  cast d (cast d (cast d v)) = cast d v.
Proof.
  destruct v as [u w [[]|]], d; unfold cast, set_userVote; simpl;
    f_equal; lia.
Qed.

Lemma getVotes_vote_same (argId : ident) (d : Dir) (s : Store) :
  getVotes argId (fst (vote argId d s)) = cast d (getVotes argId s).
Proof. by rewrite getVotes_vote, bool_decide_true. Qed.

(** X15. Voting the same direction twice on an argument with a vote
    record gives the store back as it was, whatever the counters hold,
    unless the recorded vote was the opposite direction: then the second
    call only takes the new vote back, the earlier vote stays lost and the
    record ends with no vote.  A third vote in the direction gives the
    record of the first. *)
Theorem vote_same_direction_twice (s : Store) (argId : ident) (d : Dir)
    (v : VoteRecord) :
  votes s !! argId = Some v ->
  let once := fst (vote argId d s) in
  let twice := fst (vote argId d once) in
  (userVote v <> Some (other d) -> twice = s) /\
  (userVote v = Some (other d) ->
     getVotes argId twice =
     set_userVote None (set_counter (other d) (counter (other d) v - 1) v)) /\
  getVotes argId (fst (vote argId d twice)) = getVotes argId once.
Proof.
  intros Hv once twice.
  assert (getVotes argId s = v) as Hg by (unfold getVotes; by rewrite Hv).
  split; [|split].
  - intros Hu. subst twice once. unfold vote. cbn [fst votes set_votes].
    rewrite lookup_insert_eq, Hv. cbn [from_option id].
    rewrite insert_insert_eq, cast_cast, insert_id by done. by destruct s.
  - intros Hu. subst twice once.
    by rewrite !getVotes_vote_same, Hg, cast_cast_switch.
  - subst twice once. by rewrite !getVotes_vote_same, cast_thrice.
Qed.

Lemma vote_same_direction_twice_witness :
  votes votedStore !! a1 = Some (mkVotes 1 0 (Some up)) /\
  fst (vote a1 up (fst (vote a1 up votedStore))) = votedStore.
Proof.
  split; [reflexivity|].
  destruct (vote_same_direction_twice votedStore a1 up _ eq_refl) as (H & _).
  apply H. discriminate.
Defined.

(** ** What the store keeps *)

Lemma update_post_Forall (P : Post -> Prop) (id : ident) (f : Post -> Post)
    (ps : list Post) :
  (forall p, P p -> P (f p)) -> Forall P ps -> Forall P (update_post id f ps).
Proof.
  intros Hf. induction 1 as [|p ps Hp Hps IH]; [done|].
  rewrite update_post_cons. case_bool_decide; constructor; auto.
Qed.

Lemma count_argument_ok (side : jsstring) (p : Post) :
  post_ok p -> post_ok (count_argument side p).
Proof.
  unfold post_ok, count_argument, eqs; simpl.
  intros (Hf & Hg & Hsum & Hm & Ha).
  destruct (decide (side = FOR)) as [->|Hne].
  - rewrite bool_decide_true, bool_decide_false by done. repeat split; lia || done.
  - rewrite (bool_decide_false (side = FOR)) by done.
    case_bool_decide; repeat split; lia || done.
Qed.

Lemma posts_ok_step (op : Op) (s : Store) :
  Forall post_ok (posts s) -> Forall post_ok (posts (store_of (step op s))).
Proof.
  intros H.
  destruct op as [e1 e2 sp|e postId sp|argId d|argId|postId t|st postId].
  - cbn [step]. replace (store_of _) with (store_of (createPost e1 e2 sp s))
      by by destruct (createPost e1 e2 sp s).
    rewrite createPost_posts. constructor; [|done].
    unfold createdPost.
    assert (post_ok (newPost e1 sp)) as Hnew by (by unfold post_ok, newPost).
    destruct (ps_tags sp); [|done].
    destruct (hasOpening sp); [by apply count_argument_ok|done].
  - cbn [step store_of].
    destruct (createArgument_posts_args e postId sp s) as [-> _].
    apply update_post_Forall; [apply count_argument_ok|done].
  - done.
  - cbn [step store_of]. unfold toggleSteelman.
    by destruct (steelman_scan _ _) as [[??]|].
  - cbn [step store_of]. unfold declareMindChange. cbn [posts set_posts].
    apply update_post_Forall; [|done].
    unfold post_ok, count_mind_change; simpl. intros p (?&?&?&?&?).
    repeat split; lia || done.
  - cbn [step store_of]. unfold setCurrentPost. by destruct st.
Qed.

(** X18. In every store reached from the empty one, whatever identifiers
    [uid()] hands out, each post has forCount, againstCount and mindChanges
    that are not negative, forCount + againstCount at most argCount, and
    the author "You". *)
Theorem post_counter_bounds (ops : list Op) :
  Forall post_ok (getAllPosts (run ops emptyStore)).
Proof.
  unfold getAllPosts.
  assert (Forall post_ok (posts emptyStore)) as H by constructor.
  revert H. generalize emptyStore. induction ops as [|op ops IH]; intros s H.
  - done.
  - apply IH. by apply posts_ok_step.
Qed.

Section ObjForall.
Context {V : Type} (P : ident * V -> Prop).

Lemma obj_replace_Forall (k : ident) (v : V) (o : obj V) :
  P (k, v) -> Forall P o -> Forall P (obj_replace k v o).
Proof.
  intros Hkv. induction 1 as [|[k' v'] r Hx Hr IH]; [done|]. simpl.
  case_bool_decide; subst; constructor; auto.
Qed.

Lemma obj_add_Forall (k : ident) (v : V) (o : obj V) :
  P (k, v) -> Forall P o -> Forall P (obj_add k v o).
Proof.
  intros Hkv Ho. unfold obj_add. destruct (array_index k) as [n|].
  - induction Ho as [|[k' v'] r Hx Hr IH]; simpl; [by constructor|].
    destruct (array_index k') as [n'|]; [destruct (n' <? n)%N|];
      repeat constructor; auto.
  - apply Forall_app. split; [done|by constructor].
Qed.

Lemma obj_set_Forall (k : ident) (v : V) (o : obj V) :
  P (k, v) -> Forall P o -> Forall P (obj_set k v o).
Proof.
  intros Hkv Ho. unfold obj_set. destruct (obj_get k o).
  - by apply obj_replace_Forall.
  - by apply obj_add_Forall.
Qed.
End ObjForall.

Lemma arg_ok_insert (vs : gmap ident VoteRecord) (k : ident) (v : VoteRecord)
    (postId : ident) (a : Argument) :
  arg_ok vs postId a -> arg_ok (<[k := v]> vs) postId a.
Proof.
  intros (H1 & H2 & H3 & H4). repeat split; try done.
  destruct (decide (k = arg_id a)) as [->|Hne].
  - by rewrite lookup_insert_eq.
  - by rewrite lookup_insert_ne.
Qed.

Lemma args_ok_insert (k : ident) (v : VoteRecord) (s : Store) :
  args_ok s -> args_ok (set_votes (<[k := v]> (votes s)) s).
Proof.
  unfold args_ok. cbn [args votes set_votes]. intros H.
  eapply Forall_impl; [exact H|]. intros [pid l] Hl.
  eapply Forall_impl; [exact Hl|]. intros a. apply arg_ok_insert.
Qed.

Lemma getArguments_ok (postId : ident) (s : Store) :
  args_ok s -> Forall (arg_ok (votes s) postId) (getArguments postId s).
Proof.
  unfold args_ok, getArguments. intros H.
  destruct (obj_get postId (args s)) as [l|] eqn:E; [|by constructor].
  apply obj_get_elem in E. rewrite Forall_forall in H. apply (H _ E).
Qed.

Lemma flip_ok (vs : gmap ident VoteRecord) (postId : ident) (a : Argument) :
  arg_ok vs postId a -> arg_ok vs postId (flip a).
Proof.
  unfold arg_ok, flip; simpl. intros (H1 & H2 & H3 & H4).
  repeat split; try done. rewrite H2. by destruct (steelmanned a).
Qed.

Lemma steelman_scan_ok (vs : gmap ident VoteRecord) (argId : ident)
    (o o' : obj (list Argument)) (b : bool) :
  steelman_scan argId o = Some (o', b) ->
  Forall (fun entry => Forall (arg_ok vs entry.1) entry.2) o ->
  Forall (fun entry => Forall (arg_ok vs entry.1) entry.2) o'.
Proof.
  revert o' b. induction o as [|[k l] r IH]; intros o' b; simpl; [done|].
  intros Hscan [Hl Hr]%Forall_cons.
  destruct (list_find (is_arg argId) l) as [[i a]|] eqn:E.
  - injection Hscan as <- <-. constructor; [|done]. simpl in *.
    apply Forall_insert; [done|]. apply flip_ok.
    apply list_find_Some in E as (Hi & _).
    rewrite Forall_forall in Hl. apply Hl. by eapply list_elem_of_lookup_2.
  - destruct (steelman_scan argId r) as [[r' b']|] eqn:Er; [|done].
    injection Hscan as <- <-. constructor; [done|]. by eapply IH.
Qed.

Lemma args_ok_createArgument (e : Env) (postId : ident) (sp : ArgSpec)
    (s : Store) :
  args_ok s -> args_ok (fst (createArgument e postId sp s)).
Proof.
  intros H. pose proof (getArguments_ok postId s H) as Hl.
  unfold args_ok, createArgument. cbn [fst args votes].
  apply obj_set_Forall.
  - cbn [fst snd]. constructor.
    + unfold arg_ok; simpl. rewrite lookup_insert_eq.
      repeat split; try done. unfold or_else, You.
      by destruct (as_author sp) as [[|c r]|].
    + eapply Forall_impl; [exact Hl|]. intros a. apply arg_ok_insert.
  - eapply Forall_impl; [exact H|]. intros [pid l] Hpl.
    eapply Forall_impl; [exact Hpl|]. intros a. apply arg_ok_insert.
Qed.

Lemma args_ok_ext (s s' : Store) :
  args s' = args s -> votes s' = votes s -> args_ok s -> args_ok s'.
Proof. unfold args_ok. by intros -> ->. Qed.

Lemma args_ok_step (op : Op) (s : Store) :
  args_ok s -> args_ok (store_of (step op s)).
Proof.
  intros H.
  destruct op as [e1 e2 sp|e postId sp|argId d|argId|postId t|st postId].
  - rewrite store_of_step_createPost. cbv zeta.
    destruct (ps_tags sp) as [tags|]; [|done].
    destruct (hasOpening sp); [|done].
    apply args_ok_createArgument. by eapply args_ok_ext; [| |exact H].
  - by apply args_ok_createArgument.
  - cbn [step store_of]. unfold vote. cbn [fst]. by apply args_ok_insert.
  - cbn [step store_of]. unfold toggleSteelman.
    destruct (steelman_scan argId (args s)) as [[o' b]|] eqn:E; [|done].
    cbn [fst]. unfold args_ok. cbn [args votes set_args].
    by eapply steelman_scan_ok.
  - done.
  - cbn [step store_of]. unfold setCurrentPost. by destruct st.
Qed.

Lemma args_ok_run (ops : list Op) : args_ok (run ops emptyStore).
Proof.
  assert (args_ok emptyStore) as H by constructor.
  revert H. generalize emptyStore. induction ops as [|op ops IH]; intros s H.
  - done.
  - apply IH. by apply args_ok_step.
Qed.

(** X16. In every store reached from the empty one, the steelman count of
    an argument is 1 while the argument is steelmanned and 0 while it is
    not: it never exceeds 1 and never becomes negative. *)
Theorem steelman_count_consistent (ops : list Op) (postId : ident) :
  Forall (fun a => steelmanCount a = (if steelmanned a then 1 else 0) /\
                   0 <= steelmanCount a <= 1)
    (getArguments postId (run ops emptyStore)).
Proof.
  pose proof (getArguments_ok postId _ (args_ok_run ops)) as H.
  eapply Forall_impl; [exact H|]. intros a (_ & Ha & _).
  split; [done|]. rewrite Ha. destruct (steelmanned a); lia.
Qed.

(** X17. In every store reached from the empty one, an argument that
    [getArguments] lists for a post records that post as its [postId], has
    a vote record under its identifier, and has an author that is not the
    empty string. *)
Theorem argument_records (ops : list Op) (postId : ident) :
  Forall (fun a => arg_postId a = postId /\
                   arg_id a ∈ dom (votes (run ops emptyStore)) /\
                   arg_author a <> [])
    (getArguments postId (run ops emptyStore)).
Proof.
  pose proof (getArguments_ok postId _ (args_ok_run ops)) as H.
  eapply Forall_impl; [exact H|]. intros a (H1 & _ & H3 & H4).
  repeat split; try done. by apply elem_of_dom.
Qed.

(** ** Mind changes and the current post *)



(** X20. After [setCurrentPost(id)] with a non-empty [id], [getCurrentPost]
    answers what [getPost(id)] answers; the pointer is resolved when it is
    read, so an argument created in between is already counted.  When the
    write to [localStorage] fails the pointer keeps its old value, and an
    empty identifier reads back as null. *)
Theorem current_post_round_trip (id : ident) (s : Store) :
  (id <> [] -> getCurrentPost (setCurrentPost true id s) = getPost id s) /\
  (id <> [] -> forall e sp,
     getCurrentPost (fst (createArgument e id sp (setCurrentPost true id s))) =
     count_argument (as_side sp) <$> getPost id s) /\
  getCurrentPost (setCurrentPost false id s) = getCurrentPost s /\
  getCurrentPost (setCurrentPost true [] s) = None.
Proof.
  split; [|split; [|split]]; try done.
  - intros Hid. unfold getCurrentPost, setCurrentPost. cbn [current set_current].
    by destruct id.
  - intros Hid e sp.
    assert (current (setCurrentPost true id s) = Some id) as Hcur by done.
    assert (getPost id (setCurrentPost true id s) = getPost id s) as Hsame
      by done.
    set (s0 := setCurrentPost true id s) in *.
    pose proof (createArgument_getPost e id sp s0) as H.
    assert (current (fst (createArgument e id sp s0)) = current s0) as Hc
      by done.
    unfold getCurrentPost. rewrite Hc, Hcur, H, Hsame.
    by destruct id.
Qed.

Lemma current_post_round_trip_witness :
  p1 <> [] /\
  getCurrentPost (setCurrentPost true p1 demoStore) = Some demoPost.
Proof.
  assert (p1 <> []) as H by discriminate.
  split; [exact H|].
  destruct (current_post_round_trip p1 demoStore) as (Hget & _).
  rewrite (Hget H). vm_compute. reflexivity.
Defined.

(** ** The tag vocabulary *)

Lemma registerTag_NoDup (v : list jsstring) (t : jsstring) :
  NoDup v -> NoDup (registerTag v t).
Proof.
  intros H. unfold registerTag. case_bool_decide as E; [done|].
  apply NoDup_app. repeat split; [done| |apply NoDup_singleton].
  intros x Hx ->%list_elem_of_singleton. done.
Qed.

Lemma registerTags_NoDup (tags v : list jsstring) :
  NoDup v -> NoDup (registerTags tags v).
Proof.
  revert v. unfold registerTags.
  induction tags as [|t ts IH]; intros v H; [done|].
  simpl. apply IH. by apply registerTag_NoDup.
Qed.

Lemma registerTags_known (tags v : list jsstring) :
  Forall (fun t => t ∈ v) tags -> registerTags tags v = v.
Proof.
  unfold registerTags. induction 1 as [|t ts Ht Hts IH]; [done|].
  simpl. unfold registerTag at 2. by rewrite bool_decide_true.
Qed.

Lemma registerTags_holds (tags v : list jsstring) :
  Forall (fun t => t ∈ registerTags tags v) tags.
Proof.
  revert v. unfold registerTags.
  induction tags as [|t ts IH]; intros v; [done|].
  simpl. constructor; [|apply IH].
  eapply elem_of_prefix; [|apply (registerTags_prefix ts)].
  unfold registerTag. case_bool_decide; [done|].
  apply elem_of_app. right. left.
Qed.

Lemma allTags_createPost (e1 e2 : Env) (sp : PostSpec) (s : Store) :
  allTags (store_of (createPost e1 e2 sp s)) =
  registerTags (default [] (ps_tags sp)) (allTags s).
Proof.
  unfold createPost. destruct (ps_tags sp) as [tags|]; [|done].
  by destruct (hasOpening sp).
Qed.

Lemma allTags_NoDup_step (op : Op) (s : Store) :
  NoDup (allTags s) -> NoDup (allTags (store_of (step op s))).
Proof.
  intros H.
  destruct op as [e1 e2 sp|e postId sp|argId d|argId|postId t|st postId].
  - cbn [step]. replace (store_of _) with (store_of (createPost e1 e2 sp s))
      by by destruct (createPost e1 e2 sp s).
    rewrite allTags_createPost. by apply registerTags_NoDup.
  - done.
  - done.
  - cbn [step store_of]. unfold toggleSteelman.
    by destruct (steelman_scan _ _) as [[??]|].
  - done.
  - cbn [step store_of]. unfold setCurrentPost. by destruct st.
Qed.

(** X21. The tag vocabulary never holds a tag twice: it starts with
    eighteen different default tags, and no sequence of calls brings in a
    repetition, also when a post lists a tag more than once. *)
Theorem vocabulary_without_repetition (ops : list Op) :
  NoDup (getAllTags emptyStore) /\ length (getAllTags emptyStore) = 18%nat /\
  NoDup (getAllTags (run ops emptyStore)).
Proof.
  assert (NoDup (allTags emptyStore)) as H0.
  { apply (bool_decide_unpack _). by vm_compute. }
  split; [done|]. split; [done|]. unfold getAllTags.
  revert H0. generalize emptyStore. induction ops as [|op ops IH]; intros s H.
  - done.
  - apply IH. by apply allTags_NoDup_step.
Qed.

(** X22. Registering tags is idempotent: a post whose tags the vocabulary
    all holds leaves the vocabulary as it is, so creating a second post
    with the tags of the first changes nothing in it. *)
Theorem createPost_known_tags (e1 e2 e3 e4 : Env) (sp sp' : PostSpec)
    (s : Store) (tags : list jsstring) :
  ps_tags sp = Some tags ->
  (Forall (fun t => t ∈ allTags s) tags ->
     getAllTags (store_of (createPost e1 e2 sp s)) = getAllTags s) /\
  (ps_tags sp' = Some tags ->
     getAllTags (store_of (createPost e3 e4 sp'
                             (store_of (createPost e1 e2 sp s)))) =
     getAllTags (store_of (createPost e1 e2 sp s))).
Proof.
  intros Htags. unfold getAllTags. rewrite !allTags_createPost, Htags.
  split.
  - apply registerTags_known.
  - intros ->. cbn [default from_option id]. apply registerTags_known.
    apply registerTags_holds.
Qed.

Lemma createPost_known_tags_witness :
  ps_tags demoSpec = Some [lit "ethics"; lit "stoicism"; lit "stoicism"] /\
  getAllTags (store_of (createPost (mkEnv a2 2000) (mkEnv a3 2001) demoSpec
     (store_of (createPost (mkEnv p1 1000) (mkEnv a1 1001) demoSpec
                  emptyStore)))) =
  getAllTags (store_of (createPost (mkEnv p1 1000) (mkEnv a1 1001) demoSpec
                          emptyStore)).
Proof.
  split; [reflexivity|].
  destruct (createPost_known_tags (mkEnv p1 1000) (mkEnv a1 1001)
              (mkEnv a2 2000) (mkEnv a3 2001) demoSpec demoSpec emptyStore
              _ eq_refl) as [_ H].
  exact (H eq_refl).
Defined.

(** ** Steelman *)

Lemma steelman_scan_first (argId : ident) (o o' : obj (list Argument))
    (b : bool) :
  steelman_scan argId o = Some (o', b) ->
  exists n a,
    concat o.*2 !! n = Some a /\ arg_id a = argId /\
    (forall m x, (m < n)%nat -> concat o.*2 !! m = Some x -> arg_id x <> argId) /\
    concat o'.*2 = <[n := flip a]> (concat o.*2) /\
    o'.*1 = o.*1 /\ b = negb (steelmanned a).
Proof.
  revert o' b. induction o as [|[k l] r IH]; intros o' b; simpl; [done|].
  destruct (list_find (is_arg argId) l) as [[i a]|] eqn:E.
  - intros [= <- <-]. apply list_find_Some in E as (Hi & Ha & Hbefore).
    pose proof (lookup_lt_Some _ _ _ Hi) as Hlt.
    exists i, a. repeat split; try done.
    + by rewrite lookup_app_l.
    + intros m x Hm. rewrite lookup_app_l by lia. intros Hx.
      by apply (Hbefore m x).
    + simpl. by rewrite insert_app_l.
  - destruct (steelman_scan argId r) as [[r' b']|] eqn:Er; [|done].
    intros [= <- <-].
    destruct (IH _ _ eq_refl) as (n & a & Hn & Ha & Hbefore & Hc & Hk & Hb).
    apply list_find_None in E. rewrite Forall_forall in E.
    exists (length l + n)%nat, a. repeat split; try done.
    + rewrite lookup_app_r by lia. by replace (length l + n - length l)%nat with n by lia.
    + intros m x Hm Hx. destruct (decide (m < length l)%nat) as [Hl|Hl].
      * rewrite lookup_app_l in Hx by done. apply E.
        by eapply list_elem_of_lookup_2.
      * rewrite lookup_app_r in Hx by lia.
        apply (Hbefore (m - length l)%nat x); [lia|done].
    + rewrite !fmap_cons, !concat_cons. cbn [snd]. by rewrite Hc, insert_app_r.
    + rewrite !fmap_cons. by rewrite Hk.
Qed.

(** X23. When some argument has the identifier, [toggleSteelman] changes
    one argument and only that one: the first with the identifier in the
    order of the scan.  Its flag is inverted, its count goes up by one when
    the flag goes on and down by one when it goes off, and the call
    answers the new flag; the posts, the votes, the tags and the keys of
    [args] stay as they are. *)
Theorem toggleSteelman_first_match (s : Store) (argId : ident) :
  Exists (fun entry => Exists (fun a => arg_id a = argId) entry.2) (args s) ->
  exists n a,
    allArguments s !! n = Some a /\ arg_id a = argId /\
    (forall m x, (m < n)%nat -> allArguments s !! m = Some x ->
                 arg_id x <> argId) /\
    allArguments (fst (toggleSteelman argId s)) =
      <[n := flip a]> (allArguments s) /\
    steelmanned (flip a) = negb (steelmanned a) /\
    steelmanCount (flip a) =
      steelmanCount a + (if steelmanned a then -1 else 1) /\
    snd (toggleSteelman argId s) = negb (steelmanned a) /\
    (args (fst (toggleSteelman argId s))).*1 = (args s).*1 /\
    posts (fst (toggleSteelman argId s)) = posts s /\
    votes (fst (toggleSteelman argId s)) = votes s /\
    allTags (fst (toggleSteelman argId s)) = allTags s.
Proof.
  intros [[o' b] E]%steelman_scan_found.
  destruct (steelman_scan_first _ _ _ _ E) as (n & a & Hn & Ha & Hb & Hc & Hk & ->).
  exists n, a. unfold toggleSteelman, allArguments. rewrite E.
  cbn [fst snd args set_args posts votes allTags].
  repeat split; try done. unfold flip; simpl. by destruct (steelmanned a).
Qed.

Lemma toggleSteelman_first_match_witness :
  Exists (fun entry => Exists (fun a => arg_id a = a3) entry.2)
    (args demoStore) /\
  snd (toggleSteelman a3 demoStore) = false.
Proof.
  assert (Exists (fun entry => Exists (fun a => arg_id a = a3) entry.2)
            (args demoStore)) as Hex by by_decide.
  split; [exact Hex|].
  destruct (toggleSteelman_first_match demoStore a3 Hex)
    as (n & a & _). reflexivity.
Defined.

(** ** Where the cards put the text *)

Lemma concat_split_at {A} (n : nat) (pieces : list (list A)) (x : list A) :
  pieces !! n = Some x ->
  concat pieces = concat (take n pieces) ++ x ++ concat (drop (S n) pieces).
Proof.
  intros H. rewrite <- (take_drop_middle pieces n x H) at 1.
  by rewrite concat_app, concat_cons.
Qed.

Ltac split_card_at n x :=
  lazymatch goal with
  | |- concat ?pieces = _ =>
      rewrite (concat_split_at n pieces x eq_refl); cbn [firstn skipn]
  end.

Ltac split_card fuel n x :=
  lazymatch fuel with
  | O => fail "piece not found"
  | S ?fuel' => first [split_card_at n x | split_card fuel' (S n) x]
  end.

(** X5. The title of a post reaches its card at one place only, and
    escaped: the card is a text before, [escHtml(title)], and a text
    after, and neither of the two depends on the title. *)
Theorem renderPostCard_title_confined (clock : Z) (post : Post) :
  exists before after, forall title,
    renderPostCard clock (with_title title post) =
    before ++ escHtml title ++ after.
Proof.
  destruct post as [i ty ti bo ta po co wh au cr ac fc gc mc].
  eexists _, _. intros title.
  unfold renderPostCard, with_title, debateCounts, replyCount.
  cbn [post_id post_type post_title post_body post_tags post_createdAt
       argCount forCount againstCount].
  split_card 100%nat 0%nat (escHtml title). reflexivity.
Qed.

(** X6. The body of a post reaches its card at one place only: its first
    140 code units, cut before they are escaped so that no entity is cut
    in two, followed by an ellipsis when the body is longer.  Nothing else
    of the card depends on the body. *)
Theorem renderPostCard_body_confined (clock : Z) (post : Post) :
  exists before after, forall body,
    renderPostCard clock (with_body body post) =
    before ++ escHtml (take 140 body)
           ++ (if (140 <? length body)%nat then ellipsis else [])
           ++ after.
Proof.
  destruct post as [i ty ti bo ta po co wh au cr ac fc gc mc].
  eexists _, _. intros body.
  unfold renderPostCard, with_body, debateCounts, replyCount.
  cbn [post_id post_type post_title post_body post_tags post_createdAt
       argCount forCount againstCount].
  split_card 100%nat 0%nat (escHtml (take 140 body)).
  match goal with
  | |- context [concat ((if ?c then ?x else ?y) :: ?rest)] =>
      change (concat ((if c then x else y) :: rest))
        with ((if c then x else y) ++ concat rest)
  end.
  reflexivity.
Qed.

(** X7. The tags of a post reach its card at one place only: a span for
    each of the first three, in their order, the tag inside as it is;
    a fourth tag and the ones after it are not shown. *)
Theorem renderPostCard_tags_confined (clock : Z) (post : Post) :
  exists before after, forall tags,
    renderPostCard clock (with_tags tags post) =
    before ++ concat (tagSpan <$> take 3 tags) ++ after.
Proof.
  destruct post as [i ty ti bo ta po co wh au cr ac fc gc mc].
  eexists _, _. intros tags.
  unfold renderPostCard, with_tags, debateCounts, replyCount.
  cbn [post_id post_type post_title post_body post_tags post_createdAt
       argCount forCount againstCount].
  split_card 100%nat 0%nat (concat (tagSpan <$> take 3 tags)). reflexivity.
Qed.

Lemma brChar_escChar (x : N) :
  replaceAll 10 (lit "<br>") (escChar x) = brChar x.
Proof.
  unfold brChar, escChar, replaceAll.
  destruct (x =? 10)%N eqn:E10.
  - apply N.eqb_eq in E10. by subst.
  - destruct (x =? 38)%N; [done|]. destruct (x =? 60)%N; [done|].
    destruct (x =? 62)%N; [done|]. destruct (x =? 34)%N; [done|].
    simpl. by rewrite E10.
Qed.

(** X8. The body of an argument reaches its card at one place only, code
    unit by code unit: a line feed as [<br>], each of the four special
    characters as its entity, anything else as it is.  Nothing else of the
    card depends on the body. *)
Theorem renderArgCard_body_confined (toUpperCase : jsstring -> jsstring)
    (clock : Z) (s : Store) (arg : Argument) (postId : ident) :
  exists before after, forall body,
    renderArgCard toUpperCase clock s (with_arg_body body arg) postId =
    before ++ (body ≫= brChar) ++ after.
Proof.
  assert (forall body,
            replaceAll 10 (lit "<br>") (escHtml body) = body ≫= brChar) as Hbr.
  { intros body. rewrite escHtml_chars, replaceAll_bind.
    induction body as [|x body IH]; [done|].
    cbn [mbind list_bind]. by rewrite brChar_escChar, IH. }
  destruct arg as [i p sd bo au cr st sc].
  eexists _, _. intros body. rewrite <- Hbr.
  unfold renderArgCard, with_arg_body, steelBadge.
  cbn [arg_id arg_postId arg_side arg_body arg_author arg_createdAt
       steelmanned steelmanCount].
  split_card 100%nat 0%nat (replaceAll 10 (lit "<br>") (escHtml body)).
  reflexivity.
Qed.

(** ** Nothing is deleted or edited *)

Lemma update_post_content (id : ident) (f : Post -> Post) (ps : list Post) :
  (forall p, post_content (f p) = post_content p) ->
  post_content <$> update_post id f ps = post_content <$> ps.
Proof.
  intros Hf. induction ps as [|p ps IH]; [done|].
  rewrite update_post_cons. case_bool_decide; rewrite !fmap_cons.
  - by rewrite Hf.
  - by rewrite IH.
Qed.

Lemma posts_content_step (op : Op) (s : Store) :
  (post_content <$> posts s)
    `suffix_of` (post_content <$> posts (store_of (step op s))).
Proof.
  destruct op as [e1 e2 sp|e postId sp|argId d|argId|postId t|st postId].
  - cbn [step]. replace (store_of _) with (store_of (createPost e1 e2 sp s))
      by by destruct (createPost e1 e2 sp s).
    rewrite createPost_posts, fmap_cons. by apply suffix_cons_r.
  - cbn [step store_of].
    destruct (createArgument_posts_args e postId sp s) as [-> _].
    by rewrite update_post_content.
  - done.
  - cbn [step store_of]. unfold toggleSteelman.
    by destruct (steelman_scan _ _) as [[??]|].
  - cbn [step store_of]. unfold declareMindChange. cbn [posts set_posts].
    by rewrite update_post_content.
  - cbn [step store_of]. unfold setCurrentPost. by destruct st.
Qed.

(** X24. No call removes a post, reorders the posts or edits what a post
    was created with (identifier, type, title, body, tags, position,
    confidence, rebuttal condition, author, creation time): after any
    sequence of calls the old posts are the last part of the list, in
    their order, and differ from before in their counters at most. *)
Theorem posts_are_kept (ops : list Op) (s : Store) :
  (post_content <$> getAllPosts s)
    `suffix_of` (post_content <$> getAllPosts (run ops s)).
Proof.
  unfold getAllPosts. revert s. induction ops as [|op ops IH]; intros s.
  - done.
  - etrans; [apply (posts_content_step op)|apply IH].
Qed.

Lemma steelman_scan_content (argId pid : ident) (o o' : obj (list Argument))
    (b : bool) :
  steelman_scan argId o = Some (o', b) ->
  arg_content <$> default [] (obj_get pid o') =
  arg_content <$> default [] (obj_get pid o).
Proof.
  revert o' b. induction o as [|[k l] r IH]; intros o' b; simpl; [done|].
  destruct (list_find (is_arg argId) l) as [[i a]|] eqn:E.
  - intros [= <- <-]. simpl. case_bool_decide; [|done]. simpl.
    apply list_find_Some in E as (Hl & _).
    rewrite list_fmap_insert. apply list_insert_id.
    by rewrite list_lookup_fmap, Hl.
  - destruct (steelman_scan argId r) as [[r' b']|] eqn:Er; [|done].
    intros [= <- <-]. simpl. case_bool_decide; [done|]. by eapply IH.
Qed.

Lemma arguments_content_createArgument (e : Env) (postId pid : ident)
    (sp : ArgSpec) (s : Store) :
  (arg_content <$> getArguments pid s)
    `suffix_of`
  (arg_content <$> getArguments pid (fst (createArgument e postId sp s))).
Proof.
  destruct (decide (pid = postId)) as [->|Hne].
  - destruct (createArgument_posts_args e postId sp s) as [_ ->].
    rewrite fmap_cons. by apply suffix_cons_r.
  - by rewrite createArgument_other_lists.
Qed.

Lemma arguments_content_step (op : Op) (pid : ident) (s : Store) :
  (arg_content <$> getArguments pid s)
    `suffix_of` (arg_content <$> getArguments pid (store_of (step op s))) /\
  dom (votes s) ⊆ dom (votes (store_of (step op s))).
Proof.
  destruct op as [e1 e2 sp|e postId sp|argId d|argId|postId t|st postId].
  - rewrite store_of_step_createPost. cbv zeta.
    destruct (ps_tags sp) as [tags|]; [|done].
    destruct (hasOpening sp); [|done]. split.
    + etrans; [|apply arguments_content_createArgument]. done.
    + unfold createArgument. cbn [fst votes set_allTags set_posts].
      apply dom_insert_subseteq.
  - cbn [step store_of]. split; [apply arguments_content_createArgument|].
    unfold createArgument. cbn [fst votes]. apply dom_insert_subseteq.
  - cbn [step store_of]. split; [done|].
    unfold vote. cbn [fst votes set_votes]. apply dom_insert_subseteq.
  - cbn [step store_of]. unfold toggleSteelman, getArguments.
    destruct (steelman_scan argId (args s)) as [[o' b]|] eqn:E; [|done].
    cbn [fst args set_args votes]. split; [|done].
    by rewrite (steelman_scan_content _ pid _ _ _ E).
  - done.
  - cbn [step store_of]. unfold setCurrentPost. by destruct st.
Qed.

(** X25. No call removes an argument or a vote record, or edits what an
    argument was created with (identifier, post, side, body, author,
    creation time): after any sequence of calls the old arguments of a
    post are the last part of its list, in their order, differing in
    their steelman flag and count at most, and every identifier that had a
    vote record has one. *)
Theorem arguments_are_kept (ops : list Op) (postId : ident) (s : Store) :
  (arg_content <$> getArguments postId s)
    `suffix_of` (arg_content <$> getArguments postId (run ops s)) /\
  dom (votes s) ⊆ dom (votes (run ops s)).
Proof.
  revert s. induction ops as [|op ops IH]; intros s.
  - done.
  - destruct (arguments_content_step op postId s) as [H1 H2].
    destruct (IH (store_of (step op s))) as [H3 H4].
    split; [by etrans|]. etrans; [exact H2|exact H4].
Qed.

(** ** The further properties on the sample data *)

Lemma createPost_stores_post_witness :
  zz <> p1 /\
  getPost zz (store_of (createPost (mkEnv p1 1000) (mkEnv a1 1001) demoSpec
                         demoStore)) = getPost zz demoStore.
Proof.
  assert (zz <> p1) as H by discriminate.
  split; [exact H|].
  destruct (createPost_stores_post (mkEnv p1 1000) (mkEnv a1 1001) demoSpec
              demoStore) as (_ & _ & Hother).
  exact (Hother zz H).
Defined.



